(** * RIT_pd3: market-making and arbitrage decision engine

    A shallow embedding of the decision logic of [trader.py] and
    [clients.py], and the properties of it that the design document states.

    Numeric model.  Quantities, positions, ticks and ids are Python [int]s
    and are modelled as [Z].  Prices and estimates are Python [float]s and
    are modelled as exact rationals [Q], compared with the numeric
    comparisons ([Qeq_bool], [Qle_bool]) the way Python compares numbers by
    value; [round] rounds the exact value half-to-even.  Binary
    floating-point error is outside the model.

    Effects.  What the program reads from the exchange over HTTP (news,
    order books, positions, resting orders) enters the model as an argument
    or as an explicit exchange state; an exception is a [Raise] result. *)

From Stdlib Require Import ZArith QArith Qround Lia Lqa List String Ascii Bool.
From Stdlib Require Import Sorted Permutation.
Import ListNotations.

Open Scope Z_scope.

(* ================================================================== *)
(** * Python built-ins used by the program *)
(* ================================================================== *)

Module Py.

(** Exceptions the modelled code can raise. *)
Inductive exn := TypeError | ValueError.

(** The outcome of a call that may raise. *)
Inductive result (A : Type) : Type :=
| Ok (a : A)
| Raise (e : exn).
Arguments Ok {A} a.
Arguments Raise {A} e.

Definition bind {A B} (r : result A) (k : A -> result B) : result B :=
  match r with
  | Ok a => k a
  | Raise e => Raise e
  end.

(** [a > b] and [a < b] on numbers. *)
Definition gt (a b : Q) : bool := negb (Qle_bool a b).
Definition lt (a b : Q) : bool := negb (Qle_bool b a).

(** [max(a, b)] and [min(a, b)]: the first argument wins a tie. *)
Definition max (a b : Q) : Q := if gt b a then b else a.
Definition min (a b : Q) : Q := if lt b a then b else a.

(** [max(l)] and [min(l)] on a non-empty list, given as head and tail. *)
Definition max_list (x : Q) (xs : list Q) : Q := fold_left max xs x.
Definition min_list (x : Q) (xs : list Q) : Q := fold_left min xs x.

(** [round(x)]: the nearest integer, ties to the even one. *)
Definition round (x : Q) : Z :=
  let f := Qfloor x in
  match (x - inject_Z f ?= 1 # 2)%Q with
  | Lt => f
  | Gt => f + 1
  | Eq => if Z.even f then f else f + 1
  end.

(** [round(x, 2)]. *)
Definition round2 (x : Q) : Q := (inject_Z (round (x * 100)) / 100)%Q.

(** [range(n)] is empty for [n <= 0]: a loop body run once per element. *)
Definition repeat_range {A} (n : Z) (a : A) : list A := repeat a (Z.to_nat n).

(** [needle in hay] on strings. *)
Fixpoint contains (needle hay : string) : bool :=
  String.prefix needle hay ||
  match hay with
  | EmptyString => false
  | String _ hay' => contains needle hay'
  end.

Fixpoint has_char (c : ascii) (s : string) : bool :=
  match s with
  | EmptyString => false
  | String a s' => Ascii.eqb a c || has_char c s'
  end.

(** [s.split(c)[-1]]: what follows the last [c], all of [s] without one. *)
Fixpoint after_last (c : ascii) (s : string) : string :=
  match s with
  | EmptyString => EmptyString
  | String a s' =>
      if has_char c s' then after_last c s'
      else if Ascii.eqb a c then s' else s
  end.

(** [str.isspace] on the ASCII range. *)
Definition isspace (c : ascii) : bool :=
  let n := nat_of_ascii c in
  ((9 <=? n) && (n <=? 13) || (28 <=? n) && (n <=? 32))%nat.

Fixpoint lstrip (s : string) : string :=
  match s with
  | EmptyString => EmptyString
  | String a s' => if isspace a then lstrip s' else s
  end.

Fixpoint rstrip (s : string) : string :=
  match s with
  | EmptyString => EmptyString
  | String a s' =>
      match rstrip s' with
      | EmptyString => if isspace a then EmptyString else String a EmptyString
      | r => String a r
      end
  end.

(** [s.strip()]. *)
Definition strip (s : string) : string := rstrip (lstrip s).

Fixpoint until_space (s : string) : string :=
  match s with
  | EmptyString => EmptyString
  | String a s' => if isspace a then EmptyString else String a (until_space s')
  end.

(** [s.split()[0]] for a string with a character that is not a space. *)
Definition first_token (s : string) : string := until_space (lstrip s).

End Py.

Notation "x <- c1 ;; c2" := (Py.bind c1 (fun x => c2))
  (at level 61, c1 at next level, right associativity).

(* ================================================================== *)
(** * Shared data *)
(* ================================================================== *)

(** The three instruments; every dict of the program keyed by ticker uses
    exactly these keys. *)
Inductive ticker := GEM | UB | ETF.

Definition ticker_eqb (a b : ticker) : bool :=
  match a, b with
  | GEM, GEM | UB, UB | ETF, ETF => true
  | _, _ => false
  end.

Definition POSITION_LIMITS (t : ticker) : Z :=
  match t with
  | GEM => 33000
  | UB => 17500
  | ETF => 33000 + 17500
  end.

Inductive order_type := LIMIT | MARKET.
Inductive action := BUY | SELL.

(** The parameter dict handed to [create_order]; a MARKET order has no
    ['price'] key. *)
Record order := mkOrder {
  o_ticker : ticker;
  o_type : order_type;
  o_price : option Q;
  o_quantity : Z;
  o_action : action
}.

(** A price level [[price, size]] of a consolidated book or of a quote. *)
Definition level : Type := Q * Z.

(** One instrument of a consolidated book:
    [{'bids': [[price, size], ...], 'asks': [[price, size], ...]}]. *)
Record book := mkBook {
  bids : list level;
  asks : list level
}.

(* ================================================================== *)
(** * clients.py, class Exchange_Client *)
(* ================================================================== *)

Module Exchange_Client.

(** An order of the raw book, with the keys the program reads;
    ['quantity_filled'] and ['trader_id'] may be absent. *)
Record raw_order := mkRaw {
  price : Q;
  quantity : Z;
  quantity_filled : option Z;
  trader_id : option string
}.

Record raw_book := mkRawBook {
  raw_bids : list raw_order;
  raw_asks : list raw_order
}.




(** [quantity - get('quantity_filled', 0)]. *)
Definition unfilled (o : raw_order) : Z :=
  quantity o - match quantity_filled o with Some f => f | None => 0 end.

(** [d[price] += quantity] if [price in d], else [d[price] = quantity],
    on a dict kept as its items in insertion order. *)
Fixpoint dict_add (price' : Q) (quantity' : Z) (d : list level) : list level :=
  match d with
  | [] => [(price', quantity')]
  | (p, q) :: d' =>
      if Qeq_bool p price' then (p, q + quantity') :: d'
      else (p, q) :: dict_add price' quantity' d'
  end.

Definition consolidate (side : list raw_order) : list level :=
  fold_left (fun d o => dict_add (price o) (unfilled o) d) side [].

(** Tuple comparison [a <= b] on [(price, quantity)] items. *)
Definition item_le (a b : level) : bool :=
  Py.lt (fst a) (fst b) || Qeq_bool (fst a) (fst b) && (snd a <=? snd b).

(** [sorted]: a stable sort, here by insertion. *)
Fixpoint insert (le : level -> level -> bool) (x : level) (l : list level)
  : list level :=
  match l with
  | [] => [x]
  | y :: l' => if le x y then x :: l else y :: insert le x l'
  end.

Definition sorted_by (le : level -> level -> bool) (l : list level)
  : list level :=
  fold_right (insert le) [] l.

Definition sorted (l : list level) : list level := sorted_by item_le l.

Definition sorted_reverse (l : list level) : list level :=
  sorted_by (fun a b => item_le b a) l.

Definition get_consolidated_orderbook (orderbook : ticker -> raw_book)
  : ticker -> book :=
  fun t =>
    mkBook (sorted_reverse (consolidate (raw_bids (orderbook t))))
           (sorted (consolidate (raw_asks (orderbook t)))).

(** One of the trader's own open orders, as [get_orders] lists it. *)
Record open_order := mkOpen {
  op_ticker : ticker;
  op_action : action;
  op_price : Q;
  op_quantity : Z;
  op_quantity_filled : option Z;
  order_id : Z
}.

(** An entry [{'price':, 'size':, 'order_id':}] of [get_quotes]. *)
Record resting := mkResting {
  r_price : Q;
  r_size : Z;
  r_order_id : Z
}.

Record side_quotes := mkQuotes {
  q_bids : list resting;
  q_asks : list resting
}.

Definition action_eqb (a b : action) : bool :=
  match a, b with
  | BUY, BUY | SELL, SELL => true
  | _, _ => false
  end.

Definition on_side (t : ticker) (a : action) (o : open_order) : bool :=
  ticker_eqb (op_ticker o) t && action_eqb (op_action o) a.

Definition to_resting (o : open_order) : resting :=
  mkResting (op_price o)
            (op_quantity o
             - match op_quantity_filled o with Some f => f | None => 0 end)
            (order_id o).

(** [get_quotes], on the orders [get_orders] returned: each order is
    appended to the list of its ticker and side, in the order listed. *)
Definition get_quotes (orders : list open_order) : ticker -> option side_quotes :=
  fun t =>
    Some (mkQuotes (map to_resting (filter (on_side t BUY) orders))
                   (map to_resting (filter (on_side t SELL) orders))).

(** The exchange as the quoter sees it: the trader's open orders and the
    id the next order will get. *)
Record exchange := mkExchange {
  open_orders : list open_order;
  next_id : Z
}.

(** [cancel_all_orders(order_ids=ids)]: the orders named no longer rest. *)
Definition cancel_all_orders (ids : list Z) (ex : exchange) : exchange :=
  mkExchange
    (filter (fun o => negb (existsb (Z.eqb (order_id o)) ids)) (open_orders ex))
    (next_id ex).

(** [create_order] of a LIMIT order that does not trade at once: it
    rests, unfilled, behind the orders already open. *)
Definition create_order (o : order) (ex : exchange) : exchange :=
  match o_price o with
  | Some p =>
      mkExchange
        (open_orders ex ++
         [mkOpen (o_ticker o) (o_action o) p (o_quantity o) None (next_id ex)])
        (next_id ex + 1)
  | None => ex
  end.

End Exchange_Client.

(* ================================================================== *)
(** * trader.py, class Hitter *)
(* ================================================================== *)

Module Hitter.

(** [total_size]: a dict [{ticker: {'bid': size, 'ask': size}}], kept as
    its items in iteration order. *)
Definition total_size : Type := list (ticker * (Z * Z)).

Definition market_order (t : ticker) (a : action) : order :=
  mkOrder t MARKET None 5000 a.

(** The body of the loop over [total_size.keys()]. *)
Definition orders_for (entry : ticker * (Z * Z)) : list order :=
  let '(t, (bid_size, ask_size)) := entry in
  (if 0 <? bid_size
   then Py.repeat_range (bid_size / 5000) (market_order t SELL)
   else [])
  ++
  (if 0 <? ask_size
   then Py.repeat_range (ask_size / 5000) (market_order t BUY)
   else []).

Definition hit_to_estimate_orders (ts : total_size) : option (list order) :=
  match flat_map orders_for ts with
  | [] => None
  | orders => Some orders
  end.

(** The exchange as the hitter sees it: the positions that
    [get_positions] reads, and the orders [create_order] was called
    with. *)
Record exchange := mkExchange {
  positions : ticker -> Z;
  created : list order
}.

(** [sum(abs(value) for value in positions.values())]. *)
Definition gross_positions (p : ticker -> Z) : Z :=
  Z.abs (p GEM) + Z.abs (p UB) + Z.abs (p ETF).

(** A market order that executes in full moves the position of its
    ticker by its quantity. *)
Definition execute (p : ticker -> Z) (o : order) : ticker -> Z :=
  fun t =>
    if ticker_eqb t (o_ticker o)
    then match o_action o with
         | BUY => p t + o_quantity o
         | SELL => p t - o_quantity o
         end
    else p t.

Definition create_order (o : order) (ex : exchange) : exchange :=
  mkExchange (execute (positions ex) o) (created ex ++ [o]).

(** The two checks of the loop body: [true] when the order reaches
    [create_order], [false] when a [continue] skips it. *)
Definition admitted (p : ticker -> Z) (o : order) : bool :=
  let gross := gross_positions p in
  let t := o_ticker o in
  let quantity := o_quantity o in
  let new_gross_positions :=
    match o_action o with
    | BUY => if 0 <=? p t then gross + quantity else gross - Z.abs quantity
    | SELL => if 0 <? p t then gross - quantity else gross + Z.abs quantity
    end in
  if 100000 <? new_gross_positions then false
  else match o_action o with
       | BUY => negb (POSITION_LIMITS t <? p t + quantity)
       | SELL => negb (p t - quantity <? - POSITION_LIMITS t)
       end.

(** One iteration: positions are read afresh, then the order is sent
    or skipped. *)
Definition gate_step (ex : exchange) (o : order) : exchange :=
  if admitted (positions ex) o then create_order o ex else ex.

Definition hit_to_estimates (orders : option (list order)) (ex : exchange)
  : exchange :=
  match orders with
  | None => ex
  | Some l => fold_left gate_step l ex
  end.

(** The exchange states after each iteration of the loop. *)
Fixpoint gate_trace (l : list order) (ex : exchange) : list exchange :=
  match l with
  | [] => []
  | o :: l' => gate_step ex o :: gate_trace l' (gate_step ex o)
  end.

(** The risk limits on a position snapshot. *)
Definition within_limits (p : ticker -> Z) : Prop :=
  gross_positions p <= 100000 /\
  forall t, - POSITION_LIMITS t <= p t <= POSITION_LIMITS t.

Definition count_orders (t : ticker) (a : action) (l : list order) : nat :=
  List.length
    (filter (fun o => ticker_eqb (o_ticker o) t &&
                      match o_action o, a with
                      | BUY, BUY | SELL, SELL => true
                      | _, _ => false
                      end) l).

End Hitter.

(* ================================================================== *)
(** * trader.py, class News *)
(* ================================================================== *)

Module News.

(** A news item of the feed, with the keys the program reads. *)
Record news_item := mkNews {
  news_id : Z;
  tick : Z;
  headline : string;
  body : string
}.

(** An interval [[low, high]]. *)
Definition interval : Type := Q * Q.

Definition estimates_map : Type := ticker -> interval.

Record state := mkState {
  latest_news : list news_item;
  news_length : Z;
  estimates : estimates_map;
  new_news : bool
}.

(** The priors set by [__init__]. *)
Definition priors : estimates_map :=
  fun t =>
    match t with
    | GEM => (20, 30)
    | UB => (40, 60)
    | ETF => (60, 90)
    end%Q.

(** The answer of the news endpoint: [Some] the item list on status 200. *)
Definition response : Type := option (list news_item).

Definition get_latest_news (r : response) (st : state)
  : state * option (list news_item) :=
  match r with
  | Some news =>
      let len := Z.of_nat (List.length news) in
      let st' :=
        if negb (len =? news_length st)
        then mkState news len (estimates st) true
        else mkState news (news_length st) (estimates st) false in
      (st', Some news)
  | None => (st, None)
  end.

Definition calculate_estimate_interval (time : Z) (estimate : option Q)
  : Py.result interval :=
  let coefficient := (inject_Z (300 - time) / 50)%Q in
  match estimate with
  | None => Py.Raise Py.TypeError
  | Some estimate =>
      let minimum := (estimate - coefficient)%Q in
      let maximum := (estimate + coefficient)%Q in
      Py.Ok (Py.round2 minimum, Py.round2 maximum)
  end.

Definition get_processed_interval (geb_estimates ub_estimates : list interval)
  : interval * interval :=
  let geb :=
    match geb_estimates with
    | [] => (20, 30)%Q
    | e :: es =>
        (Py.max (Py.max_list (fst e) (map fst es)) 20,
         Py.min (Py.min_list (snd e) (map snd es)) 30)
    end in
  let ub :=
    match ub_estimates with
    | [] => (40, 60)%Q
    | e :: es =>
        (Py.max (Py.max_list (fst e) (map fst es)) 40,
         Py.min (Py.min_list (snd e) (map snd es)) 60)
    end in
  (geb, ub).

Section WithFloat.

(** The built-in [float] on a string: its number, or [None] where
    Python raises [ValueError]. *)
Variable float : string -> option Q.

(** Returns [(time, ticker, estimate)]; the ticker and the estimate may
    be [None]. *)
Definition parse_news_item (news : news_item)
  : Py.result (Z * option ticker * option Q) :=
  let ticker :=
    if Py.contains "GEM" (headline news) then Some GEM
    else if Py.contains "UB" (headline news) then Some UB
    else None in
  estimate <-
    (if (0 <? String.length (body news))%nat then
       let estimate := Py.strip (Py.after_last "$" (body news)) in
       if (0 <? String.length estimate)%nat then
         match float (Py.first_token estimate) with
         | Some x => Py.Ok (Some x)
         | None => Py.Raise Py.ValueError
         end
       else Py.Ok None
     else Py.Ok None) ;;
  let time_ := tick news + 1 in
  Py.Ok (time_, ticker, estimate).

(** The loop of [process_news], with the two lists built so far. *)
Fixpoint process_news_from (news_data : list news_item)
    (geb_estimates ub_estimates : list interval)
  : Py.result (list interval * list interval) :=
  match news_data with
  | [] => Py.Ok (geb_estimates, ub_estimates)
  | news :: rest =>
      if (news_id news =? 1) || (news_id news =? 12)
      then process_news_from rest geb_estimates ub_estimates
      else
        parsed <- parse_news_item news ;;
        let '(time_, ticker, estimate) := parsed in
        estimate_interval <- calculate_estimate_interval time_ estimate ;;
        match ticker with
        | Some GEM =>
            process_news_from rest (geb_estimates ++ [estimate_interval])
                              ub_estimates
        | Some UB =>
            process_news_from rest geb_estimates
                              (ub_estimates ++ [estimate_interval])
        | _ => process_news_from rest geb_estimates ub_estimates
        end
  end.

Definition process_news (news_data : list news_item)
  : Py.result (list interval * list interval) :=
  process_news_from news_data [] [].

(** [full_process_news]: the state after the call and what it returns
    or raises.  Iterating over the [None] of a failed fetch is a
    [TypeError]. *)
Definition full_process_news (r : response) (st : state)
  : state * Py.result estimates_map :=
  let '(st1, news_data) := get_latest_news r st in
  if new_news st1 then
    match news_data with
    | None => (st1, Py.Raise Py.TypeError)
    | Some news_data =>
        match process_news news_data with
        | Py.Raise e => (st1, Py.Raise e)
        | Py.Ok (geb_estimates, ub_estimates) =>
            let '(geb_interval, ub_interval) :=
              get_processed_interval geb_estimates ub_estimates in
            let estimates : estimates_map :=
              fun t =>
                match t with
                | GEM => geb_interval
                | UB => ub_interval
                | ETF => (fst geb_interval + fst ub_interval,
                          snd geb_interval + snd ub_interval)%Q
                end in
            (mkState (latest_news st1) (news_length st1) estimates
                     (new_news st1),
             Py.Ok estimates)
        end
    end
  else (st1, Py.Ok (estimates st1)).

(** The fields [__init__] sets before its call of [full_process_news]. *)
Definition fresh : state := mkState [] 1 priors false.

(** The states a [News] object goes through: the fresh one, and the one
    after each call of [full_process_news], whatever the feed answers. *)
Inductive reachable : state -> Prop :=
| reachable_fresh : reachable fresh
| reachable_call r st :
    reachable st -> reachable (fst (full_process_news r st)).

End WithFloat.

(** The basket identity on an estimates map. *)
Definition basket (est : estimates_map) : Prop :=
  (fst (est ETF) == fst (est GEM) + fst (est UB) /\
   snd (est ETF) == snd (est GEM) + snd (est UB))%Q.

(** Digits of a decimal literal, most significant first. *)
Fixpoint digits (s : string) (acc : Z) : option Z :=
  match s with
  | EmptyString => Some acc
  | String a s' =>
      let n := nat_of_ascii a in
      if ((48 <=? n) && (n <=? 57))%nat
      then digits s' (10 * acc + Z.of_nat (n - 48))
      else None
  end.

Fixpoint before_char (c : ascii) (s : string) : string :=
  match s with
  | EmptyString => EmptyString
  | String a s' => if Ascii.eqb a c then EmptyString else String a (before_char c s')
  end.

Fixpoint after_char (c : ascii) (s : string) : string :=
  match s with
  | EmptyString => EmptyString
  | String a s' => if Ascii.eqb a c then s' else after_char c s'
  end.

(** [float] on the unsigned literals [d+] and [d+.d+] of the feed, such
    as [43.25]; other strings are not numbers here. *)
Definition decimal_float (s : string) : option Q :=
  let whole := before_char "." s in
  let frac := after_char "." s in
  if (String.length whole =? 0)%nat then None
  else if Py.has_char "." s && (String.length frac =? 0)%nat then None
  else
    match digits whole 0, digits frac 0 with
    | Some w, Some f =>
        Some (inject_Z w
              + inject_Z f / inject_Z (10 ^ Z.of_nat (String.length frac)))%Q
    | _, _ => None
    end.

End News.

(* ================================================================== *)
(** * trader.py, class Quoter *)
(* ================================================================== *)

Module Quoter.

Import Exchange_Client.

(** A two-sided quote [[[bid price, bid size], [ask price, ask size]]]. *)
Definition quote : Type := level * level.

(** A dict of quotes, kept as its items in iteration order. *)
Definition quotes : Type := list (ticker * quote).

(** The prices and sizes assumed for an empty side of the book. *)
Definition default_bid (t : ticker) : level :=
  match t with
  | GEM => (20%Q, 0)
  | UB => (40%Q, 0)
  | ETF => (60%Q, 0)
  end.

Definition default_ask (t : ticker) : level :=
  match t with
  | GEM => (30%Q, 0)
  | UB => (60%Q, 0)
  | ETF => (90%Q, 0)
  end.

(** [side[0] if side else default]. *)
Definition best (side : list level) (default : level) : level :=
  match side with
  | l :: _ => l
  | [] => default
  end.

Definition COMMISSION : Q := 2 # 100.
Definition MAX_SIZE : Z := 2000.

(** The two assignments that build one side of a competitive quote: the
    synthetic price capped by one bound of the interval, then floored by
    the other, for a bid; the other way round for an ask. *)
Definition competitive_bid (synthetic : Q) (size : Z) (bounds : Q * Q) : level :=
  let first := (Py.round2 (Py.min synthetic
                             (snd bounds - COMMISSION * 3 - (1 # 100))),
                size)%Q in
  (Py.round2 (Py.max (fst first) (fst bounds - COMMISSION * 3 - (1 # 100))),
   Z.min (snd first) MAX_SIZE)%Q.

Definition competitive_ask (synthetic : Q) (size : Z) (bounds : Q * Q) : level :=
  let first := (Py.round2 (Py.max synthetic
                             (fst bounds + COMMISSION * 3 + (1 # 100))),
                size)%Q in
  (Py.round2 (Py.min (fst first) (snd bounds + COMMISSION * 3 + (1 # 100))),
   Z.min (snd first) MAX_SIZE)%Q.

Definition competitive_quotes (estimates : ticker -> Q * Q)
    (consolidated_contra_book : ticker -> book) : quotes :=
  let bid t := best (bids (consolidated_contra_book t)) (default_bid t) in
  let ask t := best (asks (consolidated_contra_book t)) (default_ask t) in
  let '(gem_best_bid, gem_best_bid_size) := bid GEM in
  let '(gem_best_ask, gem_best_ask_size) := ask GEM in
  let '(ub_best_bid, ub_best_bid_size) := bid UB in
  let '(ub_best_ask, ub_best_ask_size) := ask UB in
  let '(etf_best_bid, etf_best_bid_size) := bid ETF in
  let '(etf_best_ask, etf_best_ask_size) := ask ETF in
  let gem_bid :=
    competitive_bid (etf_best_bid - ub_best_ask - COMMISSION * 3)%Q
                    (Z.min ub_best_ask_size etf_best_bid_size) (estimates GEM) in
  let gem_ask :=
    competitive_ask (etf_best_ask - ub_best_bid + COMMISSION * 3)%Q
                    (Z.min ub_best_bid_size etf_best_ask_size) (estimates GEM) in
  let ub_bid :=
    competitive_bid (etf_best_bid - gem_best_ask - COMMISSION * 3)%Q
                    (Z.min gem_best_ask_size etf_best_bid_size) (estimates UB) in
  let ub_ask :=
    competitive_ask (etf_best_ask - gem_best_bid + COMMISSION * 3)%Q
                    (Z.min gem_best_bid_size etf_best_ask_size) (estimates UB) in
  let etf_bid :=
    competitive_bid (gem_best_bid + ub_best_bid - COMMISSION * 3)%Q
                    (Z.min gem_best_bid_size ub_best_bid_size) (estimates ETF) in
  let etf_ask :=
    competitive_ask (gem_best_ask + ub_best_ask + COMMISSION * 3)%Q
                    (Z.min gem_best_ask_size ub_best_ask_size) (estimates ETF) in
  [(GEM, (gem_bid, gem_ask)); (UB, (ub_bid, ub_ask)); (ETF, (etf_bid, etf_ask))].

(** The two [if]s of [optimize_quotes] for one ticker; sizes are not
    touched. *)
Definition optimize (t : ticker) (q : quote)
    (consolidated_contra_book : ticker -> book) : quote :=
  let best_bid := fst (best (bids (consolidated_contra_book t)) (default_bid t)) in
  let best_ask := fst (best (asks (consolidated_contra_book t)) (default_ask t)) in
  let my_bid := fst (fst q) in
  let my_ask := fst (snd q) in
  ((if Py.gt my_bid best_bid then Py.round2 (best_bid + (1 # 100)) else my_bid,
    snd (fst q)),
   (if Py.lt my_ask best_ask then Py.round2 (best_ask - (1 # 100)) else my_ask,
    snd (snd q))).

(** [optimize_quotes]; the argument is read at the three tickers. *)
Definition optimize_quotes (competitive_quotes : ticker -> quote)
    (consolidated_contra_book : ticker -> book) : quotes :=
  [(GEM, optimize GEM (competitive_quotes GEM) consolidated_contra_book);
   (UB, optimize UB (competitive_quotes UB) consolidated_contra_book);
   (ETF, optimize ETF (competitive_quotes ETF) consolidated_contra_book)].

Definition get_position_skew (t : ticker) (position : Z) : Q :=
  let zero_one_normalized_position :=
    (inject_Z (position + POSITION_LIMITS t)
     / inject_Z (2 * POSITION_LIMITS t))%Q in
  ((zero_one_normalized_position - (5 # 10)) * 2)%Q.

(** The body of the loop of [adjust_quotes]. *)
Definition adjust (t : ticker) (q : quote) (position : Z) : quote :=
  let position_skew := get_position_skew t position in
  let bid_size := snd (fst q) in
  let ask_size := snd (snd q) in
  let new_bid_size := Py.round (inject_Z bid_size * (1 - position_skew)) in
  let new_ask_size := Py.round (inject_Z ask_size * (1 + position_skew)) in
  ((fst (fst q), new_bid_size), (fst (snd q), new_ask_size)).

Definition adjust_quotes (optimized_quotes : quotes) (positions : ticker -> Z)
  : quotes :=
  map (fun e => (fst e, adjust (fst e) (snd e) (positions (fst e))))
      optimized_quotes.

Definition limit_order (t : ticker) (l : level) (a : action) : order :=
  mkOrder t LIMIT (Some (fst l)) (snd l) a.

(** One side of one ticker in [check_against_current_quotes]: the orders
    to send and the ids to cancel.  Only the first resting order of the
    side is looked at. *)
Definition check_side (t : ticker) (a : action) (current : list resting)
    (adjusted : level) : list order * list Z :=
  match current with
  | [] =>
      if 0 <? snd adjusted then ([limit_order t adjusted a], []) else ([], [])
  | current_quote :: _ =>
      if (0 <? snd adjusted) && negb (Qeq_bool (fst adjusted) (r_price current_quote))
      then ([limit_order t adjusted a], [r_order_id current_quote])
      else ([], [])
  end.

(** [current_quotes.get(ticker, {'bids': [], 'asks': []})]. *)
Definition current_of (current_quotes : ticker -> option side_quotes)
    (t : ticker) : side_quotes :=
  match current_quotes t with
  | Some c => c
  | None => mkQuotes [] []
  end.

(** The body of the loop over [adjusted_quotes.keys()]: bids, then asks. *)
Definition check_ticker (current_quotes : ticker -> option side_quotes)
    (e : ticker * quote) : list order * list Z :=
  let current_ticker_quotes := current_of current_quotes (fst e) in
  let b := check_side (fst e) BUY (q_bids current_ticker_quotes) (fst (snd e)) in
  let a := check_side (fst e) SELL (q_asks current_ticker_quotes) (snd (snd e)) in
  (fst b ++ fst a, snd b ++ snd a).

(** [check_against_current_quotes]: [orders_to_send], which it returns,
    and [orders_to_cancel], which it hands to [cancel_all_orders] when
    not empty. *)
Definition check_against_current_quotes
    (current_quotes : ticker -> option side_quotes) (adjusted_quotes : quotes)
  : list order * list Z :=
  (flat_map (fun e => fst (check_ticker current_quotes e)) adjusted_quotes,
   flat_map (fun e => snd (check_ticker current_quotes e)) adjusted_quotes).

(** The cap on the quantity in [calculate_and_send_orders]. *)
Definition capped (o : order) : order :=
  if 5000 <? o_quantity o
  then mkOrder (o_ticker o) (o_type o) (o_price o) 5000 (o_action o)
  else o.

(** The diff stage run against the exchange: the resting quotes are
    read, the cancellations go out in one request, then each new order
    is capped and created. *)
Definition diff_stage (adjusted_quotes : quotes) (ex : exchange) : exchange :=
  let current_quotes := get_quotes (open_orders ex) in
  let '(orders_to_send, orders_to_cancel) :=
    check_against_current_quotes current_quotes adjusted_quotes in
  let ex1 :=
    match orders_to_cancel with
    | [] => ex
    | _ => cancel_all_orders orders_to_cancel ex
    end in
  fold_left (fun ex' o => create_order (capped o) ex') orders_to_send ex1.

(** What the diff stage would emit against the exchange as it stands. *)
Definition intents (adjusted_quotes : quotes) (ex : exchange)
  : list order * list Z :=
  check_against_current_quotes (get_quotes (open_orders ex)) adjusted_quotes.

End Quoter.

(* ================================================================== *)
(** * trader.py, class Hitter: from the book to the orders *)
(* ================================================================== *)

Module Hitter_run.

(** The side of the book a size is measured on: ['bid'] or ['ask']. *)
Inductive side := Bid | Ask.

(** [check_orderbook_mispricing]: for each ticker the flags
    [{'bid': ..., 'ask': ...}].  An empty bid side reads as a best bid of
    20 and an empty ask side as a best ask of 90, for every ticker. *)
Definition check_orderbook_mispricing (consolidated_contra_book : ticker -> book)
    (estimates : ticker -> Q * Q) : ticker -> bool * bool :=
  fun t =>
    let best_bid :=
      match bids (consolidated_contra_book t) with
      | l :: _ => fst l
      | [] => 20%Q
      end in
    let best_ask :=
      match asks (consolidated_contra_book t) with
      | l :: _ => fst l
      | [] => 90%Q
      end in
    let '(lower_bound, upper_bound) := estimates t in
    (Py.gt best_bid upper_bound, Py.lt best_ask lower_bound).

(** The loop of [get_size_to_price]: sizes are added up until the first
    level at which [stop] holds, where the loop breaks. *)
Fixpoint size_until (stop : Q -> bool) (levels : list level) : Z :=
  match levels with
  | [] => 0
  | (price, size) :: rest =>
      if stop price then 0 else size + size_until stop rest
  end.

Definition get_size_to_price (t : ticker)
    (consolidated_contra_book : ticker -> book) (estimate : Q) (s : side) : Z :=
  match s with
  | Bid => size_until (fun price => Py.lt price estimate)
                      (bids (consolidated_contra_book t))
  | Ask => size_until (fun price => Py.gt price estimate)
                      (asks (consolidated_contra_book t))
  end.

(** The body of the loop of [get_total_size] for one ticker. *)
Definition total_size_of (t : ticker)
    (consolidated_contra_book : ticker -> book) (estimates : ticker -> Q * Q)
    (mispricings : ticker -> bool * bool) : Z * Z :=
  (if fst (mispricings t)
   then get_size_to_price t consolidated_contra_book (snd (estimates t)) Bid
   else 0,
   if snd (mispricings t)
   then get_size_to_price t consolidated_contra_book (fst (estimates t)) Ask
   else 0).

Definition get_total_size (consolidated_contra_book : ticker -> book)
    (estimates : ticker -> Q * Q) (mispricings : ticker -> bool * bool)
  : Hitter.total_size :=
  [(GEM, total_size_of GEM consolidated_contra_book estimates mispricings);
   (UB, total_size_of UB consolidated_contra_book estimates mispricings);
   (ETF, total_size_of ETF consolidated_contra_book estimates mispricings)].

(** The orders [run] hands to [hit_to_estimates]. *)
Definition run_orders (consolidated_contra_book : ticker -> book)
    (estimates : ticker -> Q * Q) : option (list order) :=
  let mispricing :=
    check_orderbook_mispricing consolidated_contra_book estimates in
  let total_size :=
    get_total_size consolidated_contra_book estimates mispricing in
  Hitter.hit_to_estimate_orders total_size.

Definition run (consolidated_contra_book : ticker -> book)
    (estimates : ticker -> Q * Q) (ex : Hitter.exchange) : Hitter.exchange :=
  Hitter.hit_to_estimates (run_orders consolidated_contra_book estimates) ex.

End Hitter_run.

(* ================================================================== *)
(** * trader.py: expected values and the ratio of the Controller *)
(* ================================================================== *)

Module Controller.




End Controller.

(* ================================================================== *)
(** * clients.py: further methods of the client *)
(* ================================================================== *)

Module Client.

Import Exchange_Client.

(** One side of [get_nbbo_book]: [None] for an empty side, else
    [[price, quantity - quantity_filled]] of the first order, read without
    a default for ['quantity_filled']. *)
Definition nbbo_side (orders : list raw_order) : Py.result (option level) :=
  match orders with
  | [] => Py.Ok None
  | best :: _ =>
      match quantity_filled best with
      | Some filled => Py.Ok (Some (price best, quantity best - filled))
      | None => Py.Raise Py.TypeError
      end
  end.

Definition nbbo_ticker (data : raw_book)
  : Py.result (option level * option level) :=
  b <- nbbo_side (raw_bids data) ;;
  a <- nbbo_side (raw_asks data) ;;
  Py.Ok (b, a).

Definition get_nbbo_book (orderbook : ticker -> raw_book)
  : Py.result (ticker -> option level * option level) :=
  g <- nbbo_ticker (orderbook GEM) ;;
  u <- nbbo_ticker (orderbook UB) ;;
  e <- nbbo_ticker (orderbook ETF) ;;
  Py.Ok (fun t => match t with GEM => g | UB => u | ETF => e end).

(** An entry of the securities endpoint, with the keys [get_positions]
    reads. *)
Record security := mkSecurity {
  sec_ticker : option string;
  sec_position : option Z
}.

(** [ticker in self.tickers], and the ticker it is. *)
Definition ticker_of_string (s : string) : option ticker :=
  if String.eqb s "GEM" then Some GEM
  else if String.eqb s "UB" then Some UB
  else if String.eqb s "ETF" then Some ETF
  else None.

Definition known_ticker (dictr : security) : option ticker :=
  match sec_ticker dictr with
  | Some s => ticker_of_string s
  | None => None
  end.

(** [get_positions], on the list the securities endpoint answered: a dict
    from ticker to position, [None] where the key is absent. *)
Definition get_positions (response : list security) : ticker -> option Z :=
  fold_left
    (fun positions dictr =>
       match known_ticker dictr with
       | Some t =>
           fun t' =>
             if ticker_eqb t' t
             then Some match sec_position dictr with Some p => p | None => 0 end
             else positions t'
       | None => positions
       end)
    response (fun _ => None).

(** [positions.get(ticker, 0)]. *)
Definition get0 (positions : ticker -> option Z) (t : ticker) : Z :=
  match positions t with
  | Some p => p
  | None => 0
  end.

Definition get_positions_skew (positions : ticker -> option Z) : Z :=
  (get0 positions GEM + get0 positions UB) - get0 positions ETF.

(** [get_gross_position]: the loop over [positions.values()]. *)
Definition get_gross_position (positions : ticker -> option Z) : Z :=
  fold_left
    (fun gross_position t =>
       match positions t with
       | Some position => gross_position + Z.abs position
       | None => gross_position
       end)
    [GEM; UB; ETF] 0.

(** Truth value of an optional string argument: [None] and [''] are
    false. *)
Definition truthy (s : option string) : bool :=
  match s with
  | Some s => (0 <? String.length s)%nat
  | None => false
  end.

(** [str.lower] on the ASCII range. *)
Definition lower_char (c : ascii) : ascii :=
  let n := nat_of_ascii c in
  if ((65 <=? n) && (n <=? 90))%nat then ascii_of_nat (n + 32) else c.

Fixpoint lower (s : string) : string :=
  match s with
  | EmptyString => EmptyString
  | String c s' => String (lower_char c) (lower s')
  end.

(** The query parameters [cancel_all_orders] builds. *)
Inductive cancel_params :=
| CancelAll
| CancelQuery (ticker : string) (volume : string)
| CancelTicker (ticker : string)
| CancelIds (ids : list Z).

(** The validation and the choice of parameters in [cancel_all_orders],
    up to the request it posts. *)
Definition cancel_all_orders_params (all_orders : bool)
    (ticker direction : option string) (order_ids : option (list Z))
  : Py.result cancel_params :=
  let direction_lower :=
    match direction with Some d => lower d | None => EmptyString end in
  if all_orders && (truthy ticker || truthy direction)
     && match order_ids with None => true | Some _ => false end
  then Py.Raise Py.ValueError
  else if truthy direction
          && negb (String.eqb direction_lower "buy"
                   || String.eqb direction_lower "sell")
  then Py.Raise Py.ValueError
  else if all_orders then Py.Ok CancelAll
  else if truthy ticker then
    let t := match ticker with Some t => t | None => EmptyString end in
    if truthy direction
    then Py.Ok (CancelQuery t (if String.eqb direction_lower "sell"
                               then "<0" else ">0"))
    else Py.Ok (CancelTicker t)
  else
    match order_ids with
    | Some (id :: ids) => Py.Ok (CancelIds (id :: ids))
    | _ => Py.Raise Py.ValueError
    end.

(** ['&'.join(parts)]. *)
Fixpoint join_amp (parts : list string) : string :=
  match parts with
  | [] => EmptyString
  | [x] => x
  | x :: rest => (x ++ "&" ++ join_amp rest)%string
  end.

(** [query_generation], on a dict of parameters whose values are already
    text, [None] for a value that is [None]. *)
Definition query_generation (params : list (string * option string)) : string :=
  match params with
  | [] => EmptyString
  | _ =>
      let relevant_params :=
        flat_map (fun kv => match snd kv with
                            | Some v => [(fst kv ++ "=" ++ v)%string]
                            | None => []
                            end) params in
      let query := join_amp relevant_params in
      if (0 <? String.length query)%nat then ("?" ++ query)%string
      else EmptyString
  end.

End Client.

(* ================================================================== *)
(** * trader.py, class Quoter: the whole quoting cycle *)
(* ================================================================== *)

Module Quoter_send.

(** [d[t]] on a dict of quotes; [None] stands for a [KeyError]. *)
Definition getitem (d : Quoter.quotes) (t : ticker) : option Quoter.quote :=
  match find (fun e => ticker_eqb (fst e) t) d with
  | Some e => Some (snd e)
  | None => None
  end.

(** The adjusted quotes of [calculate_and_send_orders], from the
    estimates of the news handler, the contra book and the positions;
    [None] if a dict lacked a ticker. *)
Definition adjusted_quotes (estimates : ticker -> Q * Q)
    (contra_orderbook : ticker -> book) (positions : ticker -> Z)
  : option Quoter.quotes :=
  let competitive_quotes := Quoter.competitive_quotes estimates contra_orderbook in
  match getitem competitive_quotes GEM, getitem competitive_quotes UB,
        getitem competitive_quotes ETF with
  | Some g, Some u, Some e =>
      let optimized_quotes :=
        Quoter.optimize_quotes
          (fun t => match t with GEM => g | UB => u | ETF => e end)
          contra_orderbook in
      Some (Quoter.adjust_quotes optimized_quotes positions)
  | _, _, _ => None
  end.



End Quoter_send.

(* ================================================================== *)
(** * Vocabulary of the properties *)
(* ================================================================== *)

(** The orders [hit_to_estimate_orders] emits, [None] read as no order. *)
Definition emitted (ts : Hitter.total_size) : list order :=
  match Hitter.hit_to_estimate_orders ts with
  | None => []
  | Some l => l
  end.

(** The number of full blocks of 5000 in a size. *)
Definition blocks (size : Z) : nat :=
  if 0 <? size then Z.to_nat (size / 5000) else 0%nat.

(** The body yields no number: it is empty, or nothing but spaces follows
    its last dollar sign, or [float] rejects the first word after it. *)
Definition no_estimate (float : string -> option Q) (news : News.news_item) : Prop :=
  let stripped := Py.strip (Py.after_last "$" (News.body news)) in
  News.body news = EmptyString \/
  stripped = EmptyString \/
  float (Py.first_token stripped) = None.



(** The unfilled quantity resting at the price [p] on a side. *)
Definition size_at (p : Q) (side : list Exchange_Client.raw_order) : Z :=
  fold_right
    (fun o acc =>
       if Qeq_bool (Exchange_Client.price o) p
       then Exchange_Client.unfilled o + acc else acc)
    0 side.

(** The size a dict of levels holds at the price [p]. *)
Definition level_total (p : Q) (d : list level) : Z :=
  fold_right (fun l acc => if Qeq_bool (fst l) p then snd l + acc else acc) 0 d.

(** No two items of a dict of levels have the same price. *)
Fixpoint distinct_prices (d : list level) : Prop :=
  match d with
  | [] => True
  | x :: d' => (forall y, In y d' -> ~ (fst x == fst y)%Q) /\ distinct_prices d'
  end.

Definition descending (a b : level) : Prop := (fst b < fst a)%Q.
Definition ascending (a b : level) : Prop := (fst a < fst b)%Q.


(** The side of a quote and of the resting quotes that an action works:
    BUY the bid, SELL the ask. *)
Definition quote_side (a : action) (q : Quoter.quote) : level :=
  match a with
  | BUY => fst q
  | SELL => snd q
  end.

Definition resting_side (a : action) (c : Exchange_Client.side_quotes)
  : list Exchange_Client.resting :=
  match a with
  | BUY => Exchange_Client.q_bids c
  | SELL => Exchange_Client.q_asks c
  end.

(** [o] is an order for the ticker [t] with the action [a]. *)
Definition order_on (t : ticker) (a : action) (o : order) : bool :=
  ticker_eqb (o_ticker o) t && Exchange_Client.action_eqb (o_action o) a.

(** At most one of the open orders rests on each side of each ticker. *)
Definition one_per_side (orders : list Exchange_Client.open_order) : Prop :=
  forall t a,
    (List.length (filter (Exchange_Client.on_side t a) orders) <= 1)%nat.

(** A new order and the open order it becomes. *)
Definition rests_as (o : order) (n : Exchange_Client.open_order) : Prop :=
  Exchange_Client.op_ticker n = o_ticker o /\
  Exchange_Client.op_action n = o_action o /\
  o_price o = Some (Exchange_Client.op_price n).

(** The announcements [process_news] passes over: ids 1 and 12. *)
Definition sentinel (news : News.news_item) : bool :=
  (News.news_id news =? 1) || (News.news_id news =? 12).

(** The body yields a number: it is not empty, something other than
    spaces follows its last dollar sign, and [float] accepts the first
    word of that. *)
Definition has_estimate (float : string -> option Q) (news : News.news_item) : Prop :=
  let stripped := Py.strip (Py.after_last "$" (News.body news)) in
  News.body news <> EmptyString /\
  stripped <> EmptyString /\
  exists x, float (Py.first_token stripped) = Some x.

(** The headline names GEM; it names UB and not GEM. *)
Definition about_gem (news : News.news_item) : bool :=
  Py.contains "GEM" (News.headline news).
Definition about_ub (news : News.news_item) : bool :=
  negb (Py.contains "GEM" (News.headline news))
  && Py.contains "UB" (News.headline news).

(** The size of the levels of a side whose price satisfies [P], and the
    unfilled quantity of the raw orders whose price satisfies [P]. *)
Definition level_sum (P : Q -> bool) (d : list level) : Z :=
  fold_right (fun l acc => if P (fst l) then snd l + acc else acc) 0 d.

Definition order_sum (P : Q -> bool) (side : list Exchange_Client.raw_order) : Z :=
  fold_right
    (fun o acc =>
       if P (Exchange_Client.price o) then Exchange_Client.unfilled o + acc
       else acc)
    0 side.

(** [P] does not tell equal prices apart. *)
Definition by_value (P : Q -> bool) : Prop :=
  forall a b, (a == b)%Q -> P a = P b.

(** A price at or above, at or below a bound. *)
Definition at_or_above (bound : Q) (p : Q) : bool := negb (Py.lt p bound).
Definition at_or_below (bound : Q) (p : Q) : bool := negb (Py.gt p bound).

(* ================================================================== *)
(** * Example inputs *)
(* ================================================================== *)

Module Examples.

Import Exchange_Client.
Local Open Scope string_scope.

(** Two full blocks and a remainder on the GEM ask side. *)
Definition sizes_gem_ask : Hitter.total_size := [(GEM, (0, 12000))].

(** Long 25000 GEM, flat elsewhere. *)
Definition long_gem : Hitter.exchange :=
  Hitter.mkExchange (fun t => match t with GEM => 25000 | _ => 0 end) [].

Definition sizes_mixed : Hitter.total_size :=
  [(GEM, (12000, 4999)); (UB, (0, 5000))].

(** The opening announcement, an item with an empty body, and the item
    of the docstring of [parse_news_item]. *)
Definition opening : News.news_item :=
  News.mkNews 1 0 "Welcome" "".
Definition empty_body : News.news_item :=
  News.mkNews 2 10 "Private Information #1 for UB" "".
Definition ub_43_25 : News.news_item :=
  News.mkNews 3 82 "Private Information #1 for UB"
    "After 83 seconds, your private estimate is that the final value will be $43.25".

(** A bid side with two orders of others at 10 (one written 20/2), one
    own order at 10 and one order without a trader id at 11. *)
Definition raw_gem : raw_book :=
  mkRawBook
    [mkRaw 10 100 (Some 20) (Some "user1");
     mkRaw 10 50 None (Some "user15");
     mkRaw (20 # 2) 30 None (Some "user2");
     mkRaw 11 5 None None]
    [mkRaw 12 40 None (Some "user1")].




(** One resting GEM bid at 24; two resting GEM bids at 10 and 11. *)
Definition one_bid : exchange :=
  mkExchange [mkOpen GEM BUY 24 100 None 1] 2.
Definition two_bids : exchange :=
  mkExchange [mkOpen GEM BUY 10 100 None 1; mkOpen GEM BUY 11 100 None 2] 3.

Definition adjusted_gem : Quoter.quotes :=
  [(GEM, ((25%Q, 100), (26%Q, 100)))].
Definition adjusted_gem_bid_12 : Quoter.quotes :=
  [(GEM, ((12%Q, 100), (30%Q, 0)))].
Definition adjusted_gem_no_bid : Quoter.quotes :=
  [(GEM, ((25%Q, 0), (26%Q, 100)))].

End Examples.

(* ================================================================== *)
(** * Further example inputs *)
(* ================================================================== *)

Module More_examples.

Import Exchange_Client.
Local Open Scope string_scope.

(** Two GEM estimates that overlap on [[24, 27]]. *)
Definition two_estimates : list News.interval := [(22, 27); (24, 31)]%Q.

(** A later item for UB. *)
Definition later_ub : News.news_item :=
  News.mkNews 4 199 "Private Information #2 for UB"
    "After 200 seconds, your private estimate is that the final value will be $44.10".

(** GEM bid at 31 for 12000 and at 29 for 500 against the prior
    [[20, 30]]; nothing else in the book. *)
Definition hit_book : ticker -> book :=
  fun t =>
    match t with
    | GEM => mkBook [(31%Q, 12000); (29%Q, 500)] [(32%Q, 100)]
    | _ => mkBook [] []
    end.

(** A raw book listed best first, every order with its filled
    quantity. *)
Definition raw_filled : raw_book :=
  mkRawBook
    [mkRaw 10 100 (Some 20) (Some "user1");
     mkRaw 10 30 (Some 0) (Some "user2");
     mkRaw 9 50 (Some 0) (Some "user3")]
    [mkRaw 12 40 (Some 0) (Some "user1")].

Definition securities : list Client.security :=
  [Client.mkSecurity (Some "GEM") (Some 100);
   Client.mkSecurity (Some "XYZ") (Some 5);
   Client.mkSecurity (Some "GEM") (Some 250);
   Client.mkSecurity (Some "UB") None].

Definition params_without_values : list (string * option string) :=
  [("ticker", None); ("limit", None)].

End More_examples.

(* ================================================================== *)
(** * Properties *)
(* ================================================================== *)

Lemma ticker_eqb_eq (a b : ticker) : ticker_eqb a b = true <-> a = b.
Proof. destruct a, b; simpl; split; intro H; try reflexivity; discriminate. Qed.

Lemma ticker_eqb_refl (a : ticker) : ticker_eqb a a = true.
Proof. destruct a; reflexivity. Qed.

(* ------------------------------------------------------------------ *)
(** ** Hitter: block orders and the risk gate *)

Lemma repeat_range_In {A} (n : Z) (a x : A) :
  In x (Py.repeat_range n a) -> x = a.
Proof. unfold Py.repeat_range. intro H. now apply repeat_spec in H. Qed.

Lemma orders_for_shape (e : ticker * (Z * Z)) (o : order) :
  In o (Hitter.orders_for e) ->
  o_ticker o = fst e /\ o_type o = MARKET /\ o_price o = None /\
  o_quantity o = 5000.
Proof.
  destruct e as [t [b a]]. unfold Hitter.orders_for. intro H.
  apply in_app_or in H. destruct H as [H | H].
  - destruct (0 <? b); [apply repeat_range_In in H; subst; now cbn | easy].
  - destruct (0 <? a); [apply repeat_range_In in H; subst; now cbn | easy].
Qed.

Lemma emitted_shape (ts : Hitter.total_size) (o : order) :
  In o (flat_map Hitter.orders_for ts) ->
  o_type o = MARKET /\ o_price o = None /\ o_quantity o = 5000.
Proof.
  intro H. apply in_flat_map in H. destruct H as [e [_ H]].
  now apply orders_for_shape in H.
Qed.

Lemma hit_to_estimate_orders_list (ts : Hitter.total_size) :
  match Hitter.hit_to_estimate_orders ts with
  | None => flat_map Hitter.orders_for ts = []
  | Some l => flat_map Hitter.orders_for ts = l /\ l <> []
  end.
Proof.
  unfold Hitter.hit_to_estimate_orders.
  destruct (flat_map Hitter.orders_for ts); [reflexivity | split; easy].
Qed.

(** The gate's arithmetic: an admitted block of 5000 leaves the
    positions within both limits.  Where the order flips the sign of the
    position the gate's projected gross is too low, but the new position
    is then below 5000 and the other two limits sum to at most 83500. *)
Lemma admitted_block_within_limits (p : ticker -> Z) (o : order) :
  Hitter.within_limits p ->
  o_quantity o = 5000 ->
  Hitter.admitted p o = true ->
  Hitter.within_limits (Hitter.execute p o).
Proof.
  intros [Hg Hl] Hq Ha.
  pose proof (Hl GEM) as HG. pose proof (Hl UB) as HU. pose proof (Hl ETF) as HE.
  unfold Hitter.admitted in Ha. rewrite Hq in Ha.
  unfold Hitter.within_limits, Hitter.gross_positions, Hitter.execute in *.
  rewrite Hq. unfold POSITION_LIMITS in *.
  destruct o as [t ty pr q a]. unfold o_ticker, o_action in *.
  destruct a; cbv beta iota zeta in Ha;
    [destruct (Z.leb_spec 0 (p t)) | destruct (Z.ltb_spec 0 (p t))];
    repeat match type of Ha with
           | context [?x <? ?y] => destruct (Z.ltb_spec x y)
           end;
    try discriminate Ha; clear Ha;
    destruct t; (split; [| intro t'; destruct t']); unfold ticker_eqb; lia.
Qed.

Lemma gate_step_within_limits (ex : Hitter.exchange) (o : order) :
  Hitter.within_limits (Hitter.positions ex) ->
  o_quantity o = 5000 ->
  Hitter.within_limits (Hitter.positions (Hitter.gate_step ex o)).
Proof.
  intros Hw Hq. unfold Hitter.gate_step.
  destruct (Hitter.admitted (Hitter.positions ex) o) eqn:Ha; [| exact Hw].
  cbn. now apply admitted_block_within_limits.
Qed.

Lemma gate_trace_within_limits (l : list order) :
  Forall (fun o => o_quantity o = 5000) l ->
  forall ex, Hitter.within_limits (Hitter.positions ex) ->
    Forall (fun ex' => Hitter.within_limits (Hitter.positions ex'))
           (Hitter.gate_trace l ex) /\
    Hitter.within_limits (Hitter.positions (fold_left Hitter.gate_step l ex)).
Proof.
  induction 1 as [| o l Ho _ IH]; intros ex Hw; cbn.
  - split; [constructor | exact Hw].
  - pose proof (gate_step_within_limits ex o Hw Ho) as Hs.
    destruct (IH _ Hs) as [Ht Hf]. split; [constructor |]; assumption.
Qed.


Lemma emitted_flat_map (ts : Hitter.total_size) :
  emitted ts = flat_map Hitter.orders_for ts.
Proof.
  unfold emitted. pose proof (hit_to_estimate_orders_list ts) as H.
  destruct (Hitter.hit_to_estimate_orders ts); [now destruct H | now rewrite H].
Qed.

(** C1.  Risk gate.  Starting from positions whose gross is at most
    100000 and where each instrument is within its signed limit, the
    sequential gate of [hit_to_estimates], run on the orders that
    [hit_to_estimate_orders] emits, admits an order only if its full
    execution keeps both limits; hence the positions after every iteration
    of the loop, and at its end, keep both limits. *)
Theorem hitter_gate_never_breaches (ts : Hitter.total_size) (ex : Hitter.exchange) :
  Hitter.within_limits (Hitter.positions ex) ->
  (forall p o, In o (emitted ts) -> Hitter.within_limits p ->
     Hitter.admitted p o = true ->
     Hitter.within_limits (Hitter.execute p o)) /\
  Forall (fun ex' => Hitter.within_limits (Hitter.positions ex'))
         (Hitter.gate_trace (emitted ts) ex) /\
  Hitter.within_limits
    (Hitter.positions
       (Hitter.hit_to_estimates (Hitter.hit_to_estimate_orders ts) ex)).
Proof.
  intro Hw.
  assert (Hq : Forall (fun o => o_quantity o = 5000) (emitted ts)).
  { apply Forall_forall. intros o Ho. rewrite emitted_flat_map in Ho.
    now apply emitted_shape in Ho. }
  split; [| split].
  - intros p o Ho Hp Ha. apply admitted_block_within_limits; trivial.
    rewrite Forall_forall in Hq. now apply Hq.
  - now apply gate_trace_within_limits.
  - unfold emitted in Hq. unfold Hitter.hit_to_estimates.
    destruct (Hitter.hit_to_estimate_orders ts) as [l |]; [| exact Hw].
    now apply gate_trace_within_limits.
Qed.

Lemma count_orders_app t a l1 l2 :
  Hitter.count_orders t a (l1 ++ l2) =
  (Hitter.count_orders t a l1 + Hitter.count_orders t a l2)%nat.
Proof. unfold Hitter.count_orders. now rewrite filter_app, length_app. Qed.

Lemma count_orders_blocks t a t' a' n :
  Hitter.count_orders t a (Py.repeat_range n (Hitter.market_order t' a')) =
  if ticker_eqb t' t && match a', a with
                        | BUY, BUY | SELL, SELL => true
                        | _, _ => false
                        end
  then Z.to_nat n else 0%nat.
Proof.
  unfold Hitter.count_orders, Py.repeat_range.
  induction (Z.to_nat n) as [| k IH]; cbn.
  - now destruct (ticker_eqb t' t && _).
  - destruct (ticker_eqb t' t && _) eqn:E; cbn; [now rewrite IH | exact IH].
Qed.


Lemma count_orders_for t e :
  Hitter.count_orders t SELL (Hitter.orders_for e) =
    (if ticker_eqb (fst e) t then blocks (fst (snd e)) else 0%nat) /\
  Hitter.count_orders t BUY (Hitter.orders_for e) =
    (if ticker_eqb (fst e) t then blocks (snd (snd e)) else 0%nat).
Proof.
  destruct e as [t' [b a]]. unfold Hitter.orders_for, blocks. cbn [fst snd].
  rewrite !count_orders_app.
  destruct (0 <? b), (0 <? a); rewrite ?count_orders_blocks;
    destruct (ticker_eqb t' t); cbn; split; lia.
Qed.

Lemma count_orders_absent t a ts :
  ~ In t (map fst ts) ->
  Hitter.count_orders t a (flat_map Hitter.orders_for ts) = 0%nat.
Proof.
  induction ts as [| e ts IH]; intro Hn; [reflexivity |].
  cbn [flat_map]. rewrite count_orders_app, IH.
  - destruct (count_orders_for t e) as [Hs Hb].
    destruct (ticker_eqb (fst e) t) eqn:E.
    + apply ticker_eqb_eq in E. exfalso. apply Hn. now left.
    + destruct a; [rewrite Hb | rewrite Hs]; reflexivity.
  - intro H. apply Hn. now right.
Qed.

Lemma count_orders_present t b a ts :
  NoDup (map fst ts) -> In (t, (b, a)) ts ->
  Hitter.count_orders t SELL (flat_map Hitter.orders_for ts) = blocks b /\
  Hitter.count_orders t BUY (flat_map Hitter.orders_for ts) = blocks a.
Proof.
  induction ts as [| e ts IH]; intros Hnd Hin; [easy |].
  cbn [flat_map]. rewrite !count_orders_app.
  cbn [map] in Hnd. apply NoDup_cons_iff in Hnd. destruct Hnd as [Hfresh Hnd].
  destruct (count_orders_for t e) as [Hs Hb]. rewrite Hs, Hb.
  destruct Hin as [-> | Hin].
  - cbn [fst snd] in *. rewrite ticker_eqb_refl.
    rewrite !count_orders_absent by exact Hfresh. lia.
  - destruct (IH Hnd Hin) as [IHs IHb]. rewrite IHs, IHb.
    destruct (ticker_eqb (fst e) t) eqn:E; [| lia].
    apply ticker_eqb_eq in E. exfalso. apply Hfresh. rewrite E.
    change t with (fst (t, (b, a))). now apply in_map.
Qed.

Lemma blocks_floor size :
  (0 <= size -> Z.of_nat (blocks size) = size / 5000) /\
  (size < 5000 -> blocks size = 0%nat).
Proof.
  unfold blocks. split; intro H.
  - destruct (Z.ltb_spec 0 size).
    + apply Z2Nat.id, Z.div_pos; lia.
    + assert (size = 0) as -> by lia. reflexivity.
  - destruct (Z.ltb_spec 0 size); [| reflexivity].
    rewrite Z.div_small by lia. reflexivity.
Qed.

Lemma orders_for_nil e :
  Hitter.orders_for e = [] <-> fst (snd e) < 5000 /\ snd (snd e) < 5000.
Proof.
  destruct e as [t [b a]]. cbn [fst snd]. unfold Hitter.orders_for, Py.repeat_range.
  split.
  - intro H. apply app_eq_nil in H. destruct H as [Hb Ha].
    split.
    + destruct (Z.ltb_spec 0 b); [| lia].
      destruct (Z.to_nat (b / 5000)) eqn:E; [| discriminate].
      destruct (Z.lt_ge_cases b 5000) as [Hlt | Hge]; [exact Hlt |].
      assert (1 <= b / 5000) by (apply Z.div_le_lower_bound; lia). lia.
    + destruct (Z.ltb_spec 0 a); [| lia].
      destruct (Z.to_nat (a / 5000)) eqn:E; [| discriminate].
      destruct (Z.lt_ge_cases a 5000) as [Hlt | Hge]; [exact Hlt |].
      assert (1 <= a / 5000) by (apply Z.div_le_lower_bound; lia). lia.
  - intros [Hb Ha].
    destruct (Z.ltb_spec 0 b), (Z.ltb_spec 0 a);
      rewrite ?(Z.div_small b), ?(Z.div_small a) by lia; reflexivity.
Qed.

(** C8.  Block orders.  For a total-size dict (its keys distinct),
    [hit_to_estimate_orders] emits only MARKET orders of quantity 5000
    without a price; for an instrument with available sizes [b] on the bid
    side and [a] on the ask side it emits exactly [floor (b / 5000)] SELL
    orders and [floor (a / 5000)] BUY orders, none for a side below 5000,
    and none for an instrument that is not a key; it returns [None] exactly
    when every side is below one block. *)
Theorem hit_to_estimate_orders_blocks (ts : Hitter.total_size) :
  NoDup (map fst ts) ->
  (forall o, In o (emitted ts) ->
     o_type o = MARKET /\ o_quantity o = 5000 /\ o_price o = None) /\
  (forall t b a, In (t, (b, a)) ts ->
     (0 <= b -> Z.of_nat (Hitter.count_orders t SELL (emitted ts)) = b / 5000) /\
     (b < 5000 -> Hitter.count_orders t SELL (emitted ts) = 0%nat) /\
     (0 <= a -> Z.of_nat (Hitter.count_orders t BUY (emitted ts)) = a / 5000) /\
     (a < 5000 -> Hitter.count_orders t BUY (emitted ts) = 0%nat)) /\
  (forall t a, ~ In t (map fst ts) ->
     Hitter.count_orders t a (emitted ts) = 0%nat) /\
  (Hitter.hit_to_estimate_orders ts = None <->
   forall t b a, In (t, (b, a)) ts -> b < 5000 /\ a < 5000).
Proof.
  intro Hnd. rewrite emitted_flat_map. repeat split.
  - now apply emitted_shape in H.
  - now apply emitted_shape in H.
  - now apply emitted_shape in H.
  - destruct (count_orders_present t b a ts Hnd H) as [-> _].
    now apply blocks_floor.
  - destruct (count_orders_present t b a ts Hnd H) as [-> _].
    now apply blocks_floor.
  - destruct (count_orders_present t b a ts Hnd H) as [_ ->].
    now apply blocks_floor.
  - destruct (count_orders_present t b a ts Hnd H) as [_ ->].
    now apply blocks_floor.
  - intros t a Hn. now apply count_orders_absent.
  - pose proof (hit_to_estimate_orders_list ts) as Hl.
    rewrite H in Hl. clear - Hl H0.
    induction ts as [| e ts IH]; [easy |].
    cbn [flat_map] in Hl. apply app_eq_nil in Hl. destruct Hl as [He Hts].
    destruct H0 as [-> | Hin]; [| now apply IH].
    apply orders_for_nil in He. now cbn in He.
  - pose proof (hit_to_estimate_orders_list ts) as Hl.
    rewrite H in Hl. clear - Hl H0.
    induction ts as [| e ts IH]; [easy |].
    cbn [flat_map] in Hl. apply app_eq_nil in Hl. destruct Hl as [He Hts].
    destruct H0 as [-> | Hin]; [| now apply IH].
    apply orders_for_nil in He. now cbn in He.
  - intro Hall. pose proof (hit_to_estimate_orders_list ts) as Hl.
    destruct (Hitter.hit_to_estimate_orders ts) as [l |]; [| reflexivity].
    destruct Hl as [Hl Hne]. exfalso. apply Hne. rewrite <- Hl. clear - Hall.
    induction ts as [| [t [b a]] ts IH]; [reflexivity |].
    cbn [flat_map].
    assert (He : Hitter.orders_for (t, (b, a)) = []).
    { apply orders_for_nil. cbn. apply (Hall t). now left. }
    rewrite He. cbn. apply IH. intros t' b' a' Hin. apply (Hall t'). now right.
Qed.

(* ------------------------------------------------------------------ *)
(** ** Rounding *)









(* ------------------------------------------------------------------ *)
(** ** News: estimate intervals *)


(** What [parse_news_item] makes of a body. *)
Lemma parse_news_item_estimate float news :
  News.parse_news_item float news =
  let stripped := Py.strip (Py.after_last "$" (News.body news)) in
  let tk := if Py.contains "GEM" (News.headline news) then Some GEM
            else if Py.contains "UB" (News.headline news) then Some UB
            else None in
  if (0 <? String.length (News.body news))%nat then
    if (0 <? String.length stripped)%nat then
      match float (Py.first_token stripped) with
      | Some x => Py.Ok (News.tick news + 1, tk, Some x)
      | None => Py.Raise Py.ValueError
      end
    else Py.Ok (News.tick news + 1, tk, None)
  else Py.Ok (News.tick news + 1, tk, None).
Proof.
  unfold News.parse_news_item. cbv zeta.
  destruct (0 <? String.length (News.body news))%nat; [| reflexivity].
  destruct (0 <? String.length _)%nat; [| reflexivity].
  destruct (float _); reflexivity.
Qed.


(* ------------------------------------------------------------------ *)
(** ** News: items without an estimate *)


Lemma no_estimate_raises float news geb ub rest :
  News.news_id news <> 1 -> News.news_id news <> 12 ->
  no_estimate float news ->
  exists e, News.process_news_from float (news :: rest) geb ub = Py.Raise e.
Proof.
  intros H1 H12 Hno. cbn [News.process_news_from].
  apply Z.eqb_neq in H1. apply Z.eqb_neq in H12. rewrite H1, H12. cbn [orb].
  rewrite parse_news_item_estimate. cbv zeta.
  destruct Hno as [Hb | [Hs | Hf]].
  - rewrite Hb. cbn. eauto.
  - destruct (0 <? String.length (News.body news))%nat;
      [rewrite Hs |]; cbn; eauto.
  - destruct (0 <? String.length (News.body news))%nat;
      [destruct (0 <? String.length _)%nat; [rewrite Hf |] |]; cbn; eauto.
Qed.

Lemma process_news_from_raises float news_data news :
  In news news_data ->
  News.news_id news <> 1 -> News.news_id news <> 12 ->
  no_estimate float news ->
  forall geb ub, exists e,
    News.process_news_from float news_data geb ub = Py.Raise e.
Proof.
  intros Hin H1 H12 Hno.
  induction news_data as [| n rest IH]; [easy |].
  intros geb ub. destruct Hin as [-> | Hin].
  - now apply no_estimate_raises.
  - specialize (IH Hin). cbn [News.process_news_from].
    destruct ((News.news_id n =? 1) || (News.news_id n =? 12)); [apply IH |].
    destruct (News.parse_news_item float n) as [[[time_ tk] est] | e];
      cbn; [| eauto].
    destruct (News.calculate_estimate_interval time_ est) as [iv | e];
      cbn; [| eauto].
    destruct tk as [[| |] |]; apply IH.
Qed.

(** C2.  An item without a numeric estimate.  When the item list holds an
    item, other than the opening and closing announcements (ids 1 and 12),
    whose body yields no number, [process_news] raises: it returns no
    interval lists, and [full_process_news] on a feed that changed raises
    with it and leaves the estimates as they were. *)
Theorem process_news_raises_without_estimate
    (float : string -> option Q) (news_data : list News.news_item)
    (news : News.news_item) (st : News.state) :
  In news news_data ->
  News.news_id news <> 1 -> News.news_id news <> 12 ->
  no_estimate float news ->
  Z.of_nat (List.length news_data) <> News.news_length st ->
  (exists e, News.process_news float news_data = Py.Raise e) /\
  (exists e, snd (News.full_process_news float (Some news_data) st) = Py.Raise e) /\
  News.estimates (fst (News.full_process_news float (Some news_data) st)) =
  News.estimates st.
Proof.
  intros Hin H1 H12 Hno Hlen.
  destruct (process_news_from_raises float news_data news Hin H1 H12 Hno [] [])
    as [e He].
  fold (News.process_news float news_data) in He.
  unfold News.full_process_news, News.get_latest_news.
  apply Z.eqb_neq in Hlen. rewrite Hlen. cbn. rewrite He. cbn. eauto.
Qed.

(* ------------------------------------------------------------------ *)
(** ** News: the basket identity *)

Lemma priors_basket : News.basket News.priors.
Proof. split; reflexivity. Qed.

Lemma full_process_news_basket float r st :
  News.basket (News.estimates st) ->
  News.basket (News.estimates (fst (News.full_process_news float r st))) /\
  forall est, snd (News.full_process_news float r st) = Py.Ok est ->
              News.basket est.
Proof.
  intro Hb. unfold News.full_process_news, News.get_latest_news.
  destruct r as [news |].
  - destruct (negb (_ =? _)); cbn.
    + destruct (News.process_news float news) as [[geb ub] | e]; cbn.
      * destruct (News.get_processed_interval geb ub) as [gi ui]. cbn.
        split; [split; reflexivity |].
        intros est H. injection H as <-. split; reflexivity.
      * split; [exact Hb | discriminate].
    + split; [exact Hb |]. intros est H. now injection H as <-.
  - destruct (News.new_news st); cbn.
    + split; [exact Hb | discriminate].
    + split; [exact Hb |]. intros est H. now injection H as <-.
Qed.

(** C3.  Basket identity.  In every state of a [News] object (the priors
    that [__init__] sets, and the state after each call of
    [full_process_news]) and in every map that [full_process_news]
    returns, the ETF interval is the element-wise sum of the GEM and the
    UB interval. *)
Theorem full_process_news_basket_identity
    (float : string -> option Q) (st : News.state) :
  News.reachable float st ->
  News.basket (News.estimates st) /\
  forall r est,
    snd (News.full_process_news float r st) = Py.Ok est -> News.basket est.
Proof.
  intro Hr.
  assert (Hb : News.basket (News.estimates st)).
  { induction Hr as [| r st _ IH]; [exact priors_basket |].
    now apply full_process_news_basket. }
  split; [exact Hb |].
  intros r est. now apply full_process_news_basket.
Qed.

(* ------------------------------------------------------------------ *)
(** ** Exchange_Client: the consolidated contra book *)

Lemma Qeq_bool_trans_l (a b c : Q) :
  (a == b)%Q -> Qeq_bool a c = Qeq_bool b c.
Proof.
  intro E. destruct (Qeq_bool b c) eqn:Hbc.
  - apply Qeq_bool_iff. apply Qeq_bool_iff in Hbc. now rewrite E.
  - destruct (Qeq_bool a c) eqn:Hac; [| reflexivity].
    apply Qeq_bool_iff in Hac. rewrite E in Hac.
    apply Qeq_bool_iff in Hac. congruence.
Qed.

Lemma level_total_cons (p : Q) (x : level) (d : list level) :
  level_total p (x :: d) =
  (if Qeq_bool (fst x) p then snd x else 0) + level_total p d.
Proof. unfold level_total. cbn. destruct (Qeq_bool (fst x) p); lia. Qed.

Lemma size_at_cons (p : Q) (o : Exchange_Client.raw_order) side :
  size_at p (o :: side) =
  (if Qeq_bool (Exchange_Client.price o) p then Exchange_Client.unfilled o else 0)
  + size_at p side.
Proof.
  unfold size_at. cbn. destruct (Qeq_bool (Exchange_Client.price o) p); lia.
Qed.

Lemma level_total_dict_add (p q : Q) (s : Z) (d : list level) :
  level_total p (Exchange_Client.dict_add q s d) =
  level_total p d + (if Qeq_bool q p then s else 0).
Proof.
  induction d as [| [p' s'] d IH]; cbn [Exchange_Client.dict_add].
  - rewrite level_total_cons. cbn. lia.
  - destruct (Qeq_bool p' q) eqn:E; rewrite !level_total_cons; cbn [fst snd].
    + apply Qeq_bool_iff in E. rewrite (Qeq_bool_trans_l p' q p E).
      destruct (Qeq_bool q p); lia.
    + rewrite IH. lia.
Qed.

Lemma level_total_fold (p : Q) (side : list Exchange_Client.raw_order) :
  forall d,
    level_total p
      (fold_left (fun d o => Exchange_Client.dict_add (Exchange_Client.price o)
                               (Exchange_Client.unfilled o) d) side d) =
    level_total p d + size_at p side.
Proof.
  induction side as [| o side IH]; intro d; cbn [fold_left].
  - unfold size_at. cbn. lia.
  - rewrite IH, level_total_dict_add, size_at_cons. lia.
Qed.

(** The keys after [dict_add]: the old ones, and the new price. *)
Lemma dict_add_keys (q : Q) (s : Z) (d : list level) (y : level) :
  In y (Exchange_Client.dict_add q s d) ->
  fst y = q \/ exists y', In y' d /\ fst y' = fst y.
Proof.
  induction d as [| [p' s'] d IH]; cbn.
  - intros [<- | []]. now left.
  - destruct (Qeq_bool p' q).
    + intros [<- | H]; right.
      * exists (p', s'). split; [now left | reflexivity].
      * exists y. split; [now right | reflexivity].
    + intros [<- | H].
      * right. exists (p', s'). split; [now left | reflexivity].
      * destruct (IH H) as [Hq | [y' [Hy' E]]]; [now left |].
        right. exists y'. split; [now right | exact E].
Qed.

Lemma dict_add_keeps (q : Q) (s : Z) (d : list level) (y : level) :
  In y d -> exists y', In y' (Exchange_Client.dict_add q s d) /\ fst y' = fst y.
Proof.
  induction d as [| [p' s'] d IH]; cbn; [easy |].
  destruct (Qeq_bool p' q).
  - intros [<- | H].
    + exists (p', s' + s). split; [now left | reflexivity].
    + exists y. split; [now right | reflexivity].
  - intros [<- | H].
    + exists (p', s'). split; [now left | reflexivity].
    + destruct (IH H) as [y' [Hy' E]]. exists y'. split; [now right | exact E].
Qed.

Lemma dict_add_has (q : Q) (s : Z) (d : list level) :
  exists y, In y (Exchange_Client.dict_add q s d) /\ (fst y == q)%Q.
Proof.
  induction d as [| [p' s'] d IH]; cbn.
  - exists (q, s). split; [now left | reflexivity].
  - destruct (Qeq_bool p' q) eqn:E.
    + exists (p', s' + s). split; [now left | now apply Qeq_bool_iff].
    + destruct IH as [y [Hy Ey]]. exists y. split; [now right | exact Ey].
Qed.

Lemma dict_add_distinct (q : Q) (s : Z) (d : list level) :
  distinct_prices d -> distinct_prices (Exchange_Client.dict_add q s d).
Proof.
  induction d as [| [p' s'] d IH]; cbn.
  - intros _. split; [intros y [] | exact I].
  - intros [Hhead Hd]. destruct (Qeq_bool p' q) eqn:E; cbn.
    + split; assumption.
    + split; [| now apply IH].
      intros y Hy. apply dict_add_keys in Hy.
      destruct Hy as [-> | [y' [Hy' <-]]].
      * apply Qeq_bool_neq in E. exact E.
      * now apply Hhead.
Qed.

Lemma consolidate_fold_distinct (side : list Exchange_Client.raw_order) :
  forall d, distinct_prices d ->
    distinct_prices
      (fold_left (fun d o => Exchange_Client.dict_add (Exchange_Client.price o)
                               (Exchange_Client.unfilled o) d) side d).
Proof.
  induction side as [| o side IH]; intros d Hd; cbn; [exact Hd |].
  now apply IH, dict_add_distinct.
Qed.

Lemma consolidate_fold_keys (side : list Exchange_Client.raw_order) :
  forall d y,
    In y (fold_left (fun d o => Exchange_Client.dict_add (Exchange_Client.price o)
                                  (Exchange_Client.unfilled o) d) side d) ->
    (exists o, In o side /\ Exchange_Client.price o = fst y) \/
    (exists y', In y' d /\ fst y' = fst y).
Proof.
  induction side as [| o side IH]; intros d y Hy; cbn in Hy.
  - right. now exists y.
  - destruct (IH _ _ Hy) as [[o' [Ho' E]] | [y' [Hy' E]]].
    + left. exists o'. split; [now right | exact E].
    + apply dict_add_keys in Hy'. destruct Hy' as [Hq | [y'' [Hy'' E']]].
      * left. exists o. split; [now left | congruence].
      * right. exists y''. split; [exact Hy'' | congruence].
Qed.

Lemma consolidate_fold_keeps (side : list Exchange_Client.raw_order) :
  forall d y, In y d ->
    exists y',
      In y' (fold_left (fun d o => Exchange_Client.dict_add (Exchange_Client.price o)
                                     (Exchange_Client.unfilled o) d) side d) /\
      fst y' = fst y.
Proof.
  induction side as [| o side IH]; intros d y Hy; cbn.
  - now exists y.
  - destruct (dict_add_keeps (Exchange_Client.price o)
                (Exchange_Client.unfilled o) d y Hy) as [y1 [Hy1 E1]].
    destruct (IH _ _ Hy1) as [y2 [Hy2 E2]].
    exists y2. split; [exact Hy2 | congruence].
Qed.

Lemma consolidate_fold_has (side : list Exchange_Client.raw_order) :
  forall d o, In o side ->
    exists y,
      In y (fold_left (fun d o => Exchange_Client.dict_add (Exchange_Client.price o)
                                    (Exchange_Client.unfilled o) d) side d) /\
      (fst y == Exchange_Client.price o)%Q.
Proof.
  induction side as [| o' side IH]; intros d o Ho; [easy |].
  cbn [fold_left]. destruct Ho as [-> | Ho]; [| now apply IH].
  destruct (dict_add_has (Exchange_Client.price o)
              (Exchange_Client.unfilled o) d) as [y [Hy Ey]].
  destruct (consolidate_fold_keeps side _ y Hy) as [y' [Hy' E]].
  exists y'. split; [exact Hy' | now rewrite E].
Qed.

Lemma level_total_absent (p : Q) (d : list level) :
  (forall y, In y d -> ~ (p == fst y)%Q) -> level_total p d = 0.
Proof.
  induction d as [| x d IH]; intro H; [reflexivity |].
  rewrite level_total_cons, IH.
  - destruct (Qeq_bool (fst x) p) eqn:E; [| reflexivity].
    apply Qeq_bool_iff in E. exfalso. apply (H x); [now left | now symmetry].
  - intros y Hy. apply H. now right.
Qed.

Lemma level_total_present (p : Q) (s : Z) (d : list level) :
  distinct_prices d -> In (p, s) d -> level_total p d = s.
Proof.
  induction d as [| x d IH]; intros Hd Hin; [easy |].
  destruct Hd as [Hhead Hd]. rewrite level_total_cons.
  destruct Hin as [-> | Hin]; cbn [fst snd].
  - rewrite Qeq_bool_refl, level_total_absent by exact Hhead. lia.
  - rewrite (IH Hd Hin).
    destruct (Qeq_bool (fst x) p) eqn:E; [| reflexivity].
    apply Qeq_bool_iff in E. exfalso. now apply (Hhead (p, s)).
Qed.

(** What [consolidate] makes of a side. *)
Lemma consolidate_spec (side : list Exchange_Client.raw_order) :
  distinct_prices (Exchange_Client.consolidate side) /\
  (forall p s, In (p, s) (Exchange_Client.consolidate side) ->
     (exists o, In o side /\ Exchange_Client.price o = p) /\
     s = size_at p side) /\
  (forall o, In o side ->
     exists l, In l (Exchange_Client.consolidate side) /\
               (fst l == Exchange_Client.price o)%Q).
Proof.
  unfold Exchange_Client.consolidate.
  assert (Hd : distinct_prices
                 (fold_left
                    (fun d o => Exchange_Client.dict_add (Exchange_Client.price o)
                                  (Exchange_Client.unfilled o) d) side []))
    by (apply consolidate_fold_distinct; exact I).
  split; [exact Hd |]. split.
  - intros p s Hin. split.
    + destruct (consolidate_fold_keys side [] _ Hin) as [H | [y' [[] _]]].
      exact H.
    + rewrite <- (level_total_present p s _ Hd Hin), level_total_fold.
      reflexivity.
  - intros o Ho. now apply consolidate_fold_has.
Qed.

Section Sorting.

Variable le : level -> level -> bool.
Variable R : level -> level -> Prop.
Hypothesis R_trans : forall a b c, R a b -> R b c -> R a c.
Hypothesis le_true :
  forall x y, ~ (fst x == fst y)%Q -> le x y = true -> R x y.
Hypothesis le_false :
  forall x y, ~ (fst x == fst y)%Q -> le x y = false -> R y x.

Lemma insert_In (x y : level) (l : list level) :
  In y (Exchange_Client.insert le x l) <-> y = x \/ In y l.
Proof.
  induction l as [| z l IH]; cbn.
  - intuition congruence.
  - destruct (le x z); cbn; [intuition congruence |].
    rewrite IH. intuition congruence.
Qed.

Lemma sorted_by_In (y : level) (l : list level) :
  In y (Exchange_Client.sorted_by le l) <-> In y l.
Proof.
  induction l as [| x l IH]; cbn; [reflexivity |].
  rewrite insert_In, IH. intuition congruence.
Qed.

Lemma insert_strongly_sorted (x : level) (l : list level) :
  StronglySorted R l ->
  (forall y, In y l -> ~ (fst x == fst y)%Q) ->
  StronglySorted R (Exchange_Client.insert le x l).
Proof.
  induction 1 as [| z l Hl IH Hz]; intro Hx; cbn.
  - constructor; constructor.
  - assert (Hxz : ~ (fst x == fst z)%Q) by (apply Hx; now left).
    destruct (le x z) eqn:E.
    + apply le_true in E; [| exact Hxz].
      constructor; [now constructor |].
      constructor; [exact E |].
      eapply Forall_impl; [| exact Hz]. intros a Ha. now apply (R_trans x z a).
    + apply le_false in E; [| exact Hxz].
      constructor.
      * apply IH. intros y Hy. apply Hx. now right.
      * apply Forall_forall. intros a Ha. apply insert_In in Ha.
        destruct Ha as [-> | Ha]; [exact E |].
        rewrite Forall_forall in Hz. now apply Hz.
Qed.

Lemma sorted_by_strongly_sorted (l : list level) :
  distinct_prices l -> StronglySorted R (Exchange_Client.sorted_by le l).
Proof.
  induction l as [| x l IH]; [constructor |].
  intros [Hx Hl].
  change (StronglySorted R
            (Exchange_Client.insert le x (Exchange_Client.sorted_by le l))).
  apply insert_strongly_sorted; [now apply IH |].
  intros y Hy. apply (Hx y). now apply (proj1 (sorted_by_In y l)).
Qed.

End Sorting.


Lemma item_le_lt (x y : level) :
  ~ (fst x == fst y)%Q -> Exchange_Client.item_le x y = true ->
  (fst x < fst y)%Q.
Proof.
  intros Hne H. unfold Exchange_Client.item_le, Py.lt in H.
  destruct (Qeq_bool (fst x) (fst y)) eqn:E.
  - apply Qeq_bool_iff in E. contradiction.
  - rewrite andb_false_l, orb_false_r in H.
    apply negb_true_iff in H. apply Qnot_le_lt. intro Hle.
    apply Qle_bool_iff in Hle. congruence.
Qed.

Lemma item_le_gt (x y : level) :
  ~ (fst x == fst y)%Q -> Exchange_Client.item_le x y = false ->
  (fst y < fst x)%Q.
Proof.
  intros Hne H. unfold Exchange_Client.item_le, Py.lt in H.
  apply orb_false_iff in H. destruct H as [H _].
  apply negb_false_iff, Qle_bool_iff in H.
  apply Qle_lteq in H. destruct H as [H | H]; [exact H |].
  exfalso. apply Hne. now symmetry.
Qed.

Lemma sorted_ascending (l : list level) :
  distinct_prices l -> StronglySorted ascending (Exchange_Client.sorted l).
Proof.
  apply sorted_by_strongly_sorted; unfold ascending.
  - intros a b c. apply Qlt_trans.
  - apply item_le_lt.
  - apply item_le_gt.
Qed.

Lemma sorted_reverse_descending (l : list level) :
  distinct_prices l -> StronglySorted descending (Exchange_Client.sorted_reverse l).
Proof.
  apply sorted_by_strongly_sorted; unfold descending.
  - intros a b c H1 H2. now apply (Qlt_trans _ (fst b)).
  - intros x y Hne H. apply item_le_lt; [| exact H].
    intro E. apply Hne. now symmetry.
  - intros x y Hne H. apply item_le_gt; [| exact H].
    intro E. apply Hne. now symmetry.
Qed.






(* ------------------------------------------------------------------ *)
(** ** Quoter: optimized quotes *)




Lemma gt_false_le (a b : Q) : Py.gt a b = false -> (a <= b)%Q.
Proof. unfold Py.gt. intro H. now apply negb_false_iff, Qle_bool_iff in H. Qed.

Lemma gt_true_lt (a b : Q) : Py.gt a b = true -> (b < a)%Q.
Proof.
  unfold Py.gt. intro H. apply negb_true_iff in H.
  apply Qnot_le_lt. intro Hle. apply Qle_bool_iff in Hle. congruence.
Qed.

Lemma lt_false_le (a b : Q) : Py.lt a b = false -> (b <= a)%Q.
Proof. unfold Py.lt. intro H. now apply negb_false_iff, Qle_bool_iff in H. Qed.




(* ------------------------------------------------------------------ *)
(** ** Quoter: position skew *)








(* ------------------------------------------------------------------ *)
(** ** Quoter: the diff against the resting quotes *)

Lemma check_ticker_sides cur (e : ticker * Quoter.quote) :
  Quoter.check_ticker cur e =
  (fst (Quoter.check_side (fst e) BUY
          (resting_side BUY (Quoter.current_of cur (fst e)))
          (quote_side BUY (snd e)))
   ++ fst (Quoter.check_side (fst e) SELL
             (resting_side SELL (Quoter.current_of cur (fst e)))
             (quote_side SELL (snd e))),
   snd (Quoter.check_side (fst e) BUY
          (resting_side BUY (Quoter.current_of cur (fst e)))
          (quote_side BUY (snd e)))
   ++ snd (Quoter.check_side (fst e) SELL
             (resting_side SELL (Quoter.current_of cur (fst e)))
             (quote_side SELL (snd e)))).
Proof. reflexivity. Qed.

(** A side whose adjusted size is not positive, or whose first resting
    order already has the adjusted price, yields nothing. *)
Lemma check_side_quiet t a cur lvl :
  snd lvl <= 0 \/
  (exists r rest, cur = r :: rest /\
                  (fst lvl == Exchange_Client.r_price r)%Q) ->
  Quoter.check_side t a cur lvl = ([], []).
Proof.
  unfold Quoter.check_side. intros [Hs | [r [rest [-> Hp]]]].
  - destruct (Z.ltb_spec 0 (snd lvl)); [lia |]. now destruct cur.
  - apply Qeq_bool_iff in Hp. rewrite Hp. now rewrite andb_false_r.
Qed.

Lemma check_side_sends t a cur lvl o :
  In o (fst (Quoter.check_side t a cur lvl)) ->
  o = Quoter.limit_order t lvl a /\ 0 < snd lvl.
Proof.
  unfold Quoter.check_side. destruct cur as [| r rest].
  - destruct (Z.ltb_spec 0 (snd lvl)); cbn; [| easy].
    intros [<- | []]. now split.
  - destruct (Z.ltb_spec 0 (snd lvl)); cbn [andb]; [| easy].
    destruct (negb _); cbn; [| easy]. intros [<- | []]. now split.
Qed.

Lemma check_side_cancels t a cur lvl id :
  In id (snd (Quoter.check_side t a cur lvl)) ->
  exists r rest,
    cur = r :: rest /\ id = Exchange_Client.r_order_id r /\
    0 < snd lvl /\ ~ (fst lvl == Exchange_Client.r_price r)%Q.
Proof.
  unfold Quoter.check_side. destruct cur as [| r rest].
  - now destruct (0 <? snd lvl).
  - destruct (Z.ltb_spec 0 (snd lvl)); cbn [andb]; [| easy].
    destruct (Qeq_bool (fst lvl) (Exchange_Client.r_price r)) eqn:E; cbn; [easy |].
    intros [<- | []]. exists r, rest. repeat split; trivial.
    now apply Qeq_bool_neq.
Qed.

Lemma check_sends_In cur adj o :
  In o (fst (Quoter.check_against_current_quotes cur adj)) ->
  exists t q a,
    In (t, q) adj /\
    In o (fst (Quoter.check_side t a (resting_side a (Quoter.current_of cur t))
                                 (quote_side a q))).
Proof.
  unfold Quoter.check_against_current_quotes. cbn [fst].
  intro H. apply in_flat_map in H. destruct H as [[t q] [Hin Ho]].
  rewrite check_ticker_sides in Ho. cbn [fst snd] in Ho.
  apply in_app_or in Ho. destruct Ho as [Ho | Ho].
  - now exists t, q, BUY.
  - now exists t, q, SELL.
Qed.

Lemma check_cancels_In cur adj id :
  In id (snd (Quoter.check_against_current_quotes cur adj)) <->
  exists t q a,
    In (t, q) adj /\
    In id (snd (Quoter.check_side t a (resting_side a (Quoter.current_of cur t))
                                  (quote_side a q))).
Proof.
  unfold Quoter.check_against_current_quotes. cbn [snd]. split.
  - intro H. apply in_flat_map in H. destruct H as [[t q] [Hin Ho]].
    rewrite check_ticker_sides in Ho. cbn [fst snd] in Ho.
    apply in_app_or in Ho. destruct Ho as [Ho | Ho].
    + now exists t, q, BUY.
    + now exists t, q, SELL.
  - intros [t [q [a [Hin Hid]]]]. apply in_flat_map. exists (t, q).
    split; [exact Hin |]. rewrite check_ticker_sides. cbn [fst snd].
    apply in_or_app. destruct a; [now left | now right].
Qed.

Lemma NoDup_keys_unique {A} (l : list (ticker * A)) t x y :
  NoDup (map fst l) -> In (t, x) l -> In (t, y) l -> x = y.
Proof.
  induction l as [| [t' z] l IH]; [easy |].
  cbn [map fst]. intro Hnd. apply NoDup_cons_iff in Hnd.
  destruct Hnd as [Hfresh Hnd].
  intros [Hx | Hx] [Hy | Hy].
  - congruence.
  - injection Hx as -> _. exfalso. apply Hfresh.
    change t with (fst (t, y)). now apply in_map.
  - injection Hy as -> _. exfalso. apply Hfresh.
    change t with (fst (t, x)). now apply in_map.
  - now apply IH.
Qed.

(** C10.  Sides without a positive size, and resting orders behind the
    first.  A side whose adjusted size is zero or negative yields neither
    a new order nor a cancellation from [check_against_current_quotes],
    whatever rests there; every new order in its result belongs to a side
    with a positive adjusted size; and every id it cancels is the id of
    the first resting order of a side whose adjusted size is positive and
    whose adjusted price differs from that order's price, so an order
    resting behind the first one is never the one cancelled. *)
Theorem check_against_current_quotes_untouched
    (current_quotes : ticker -> option Exchange_Client.side_quotes)
    (adjusted_quotes : Quoter.quotes) :
  (forall t q a current,
     snd (quote_side a q) <= 0 ->
     Quoter.check_side t a current (quote_side a q) = ([], [])) /\
  (NoDup (map fst adjusted_quotes) ->
   forall t q o,
     In (t, q) adjusted_quotes ->
     In o (fst (Quoter.check_against_current_quotes current_quotes adjusted_quotes)) ->
     o_ticker o = t ->
     0 < snd (quote_side (o_action o) q)) /\
  (forall id,
     In id (snd (Quoter.check_against_current_quotes current_quotes adjusted_quotes)) ->
     exists t q a r rest,
       In (t, q) adjusted_quotes /\
       resting_side a (Quoter.current_of current_quotes t) = r :: rest /\
       id = Exchange_Client.r_order_id r /\
       0 < snd (quote_side a q) /\
       ~ (fst (quote_side a q) == Exchange_Client.r_price r)%Q).
Proof.
  split; [| split].
  - intros t q a current Hs. apply check_side_quiet. now left.
  - intros Hnd t q o Hin Ho Ht.
    apply check_sends_In in Ho. destruct Ho as [t' [q' [a [Hin' Ho]]]].
    apply check_side_sends in Ho. destruct Ho as [-> Hpos].
    cbn in Ht. subst t'. cbn [Quoter.limit_order o_action].
    now rewrite (NoDup_keys_unique _ _ _ _ Hnd Hin Hin').
  - intros id Hid. apply check_cancels_In in Hid.
    destruct Hid as [t [q [a [Hin Hid]]]].
    apply check_side_cancels in Hid.
    destruct Hid as [r [rest [Hcur [Hr [Hpos Hne]]]]].
    now exists t, q, a, r, rest.
Qed.

(* ------------------------------------------------------------------ *)
(** ** Quoter: running the diff stage twice *)

Lemma filter_swap {A} (f g : A -> bool) (l : list A) :
  filter f (filter g l) = filter g (filter f l).
Proof.
  induction l as [| x l IH]; [reflexivity |]. cbn.
  destruct (f x) eqn:Ef, (g x) eqn:Eg; cbn; rewrite ?Ef, ?Eg, IH; reflexivity.
Qed.

Lemma filter_all {A} (f : A -> bool) (l : list A) :
  (forall x, In x l -> f x = true) -> filter f l = l.
Proof.
  induction l as [| x l IH]; intro H; [reflexivity |]. cbn.
  rewrite (H x) by now left. f_equal. apply IH. intros y Hy. apply H. now right.
Qed.

Lemma flat_map_nil {A B} (f : A -> list B) (l : list A) :
  (forall x, In x l -> f x = []) -> flat_map f l = [].
Proof.
  induction l as [| x l IH]; intro H; [reflexivity |]. cbn.
  rewrite (H x) by now left. apply IH. intros y Hy. apply H. now right.
Qed.

Lemma NoDup_map_inj {A B} (f : A -> B) (l : list A) x y :
  NoDup (map f l) -> In x l -> In y l -> f x = f y -> x = y.
Proof.
  induction l as [| z l IH]; [easy |].
  cbn [map]. intro Hnd. apply NoDup_cons_iff in Hnd. destruct Hnd as [Hz Hnd].
  intros [-> | Hx] [-> | Hy] E.
  - reflexivity.
  - exfalso. apply Hz. rewrite E. now apply in_map.
  - exfalso. apply Hz. rewrite <- E. now apply in_map.
  - now apply IH.
Qed.

Lemma action_eqb_eq (a b : action) :
  Exchange_Client.action_eqb a b = true <-> a = b.
Proof. destruct a, b; cbn; split; intro H; try reflexivity; discriminate. Qed.

Lemma on_side_eq t a o :
  Exchange_Client.on_side t a o = true <->
  Exchange_Client.op_ticker o = t /\ Exchange_Client.op_action o = a.
Proof.
  unfold Exchange_Client.on_side.
  now rewrite andb_true_iff, ticker_eqb_eq, action_eqb_eq.
Qed.

Lemma resting_side_get_quotes a orders t :
  resting_side a (Quoter.current_of (Exchange_Client.get_quotes orders) t) =
  map Exchange_Client.to_resting (filter (Exchange_Client.on_side t a) orders).
Proof. now destruct a. Qed.

(** The open orders once the cancellations of the diff stage went out. *)
Lemma cancelled_open_orders ids ex :
  Exchange_Client.open_orders
    match ids with
    | [] => ex
    | _ => Exchange_Client.cancel_all_orders ids ex
    end =
  filter (fun o => negb (existsb (Z.eqb (Exchange_Client.order_id o)) ids))
         (Exchange_Client.open_orders ex).
Proof.
  destruct ids as [| i ids]; [| reflexivity].
  symmetry. now apply filter_all.
Qed.

Lemma create_order_capped_open (o : order) (p : Q) ex :
  o_price o = Some p ->
  exists n,
    Exchange_Client.open_orders
      (Exchange_Client.create_order (Quoter.capped o) ex) =
    Exchange_Client.open_orders ex ++ [n] /\
    rests_as o n.
Proof.
  intro Hp.
  assert (Hc : o_price (Quoter.capped o) = Some p /\
               o_ticker (Quoter.capped o) = o_ticker o /\
               o_action (Quoter.capped o) = o_action o).
  { unfold Quoter.capped. destruct (5000 <? o_quantity o); cbn; auto. }
  destruct Hc as [Hcp [Hct Hca]].
  unfold Exchange_Client.create_order. rewrite Hcp.
  cbn [Exchange_Client.open_orders].
  eexists. split; [reflexivity |].
  unfold rests_as. cbn. rewrite Hct, Hca, Hp. auto.
Qed.

Lemma created_open_orders (sends : list order) :
  Forall (fun o => exists p, o_price o = Some p) sends ->
  forall ex, exists news,
    Exchange_Client.open_orders
      (fold_left (fun ex' o => Exchange_Client.create_order (Quoter.capped o) ex')
                 sends ex) =
    Exchange_Client.open_orders ex ++ news /\
    Forall2 rests_as sends news.
Proof.
  induction 1 as [| o sends [p Hp] _ IH]; intro ex; cbn [fold_left].
  - exists []. split; [now rewrite app_nil_r | constructor].
  - destruct (create_order_capped_open o p ex Hp) as [n [Hn Hrn]].
    destruct (IH (Exchange_Client.create_order (Quoter.capped o) ex))
      as [news [Hopen Hrest]].
    exists (n :: news). split; [| now constructor].
    rewrite Hopen, Hn, <- app_assoc. reflexivity.
Qed.

Lemma rests_as_filter t a sends news :
  Forall2 rests_as sends news ->
  Forall2 rests_as (filter (order_on t a) sends)
                   (filter (Exchange_Client.on_side t a) news).
Proof.
  induction 1 as [| o n sends news Hon _ IH]; cbn [filter]; [constructor |].
  destruct Hon as [Ht [Ha Hp]].
  unfold order_on at 1, Exchange_Client.on_side at 1. rewrite Ht, Ha.
  destruct (ticker_eqb (o_ticker o) t && _); [constructor |]; trivial.
  now split.
Qed.

Lemma filter_check_side t a t' a' cur lvl :
  filter (order_on t a) (fst (Quoter.check_side t' a' cur lvl)) =
  if ticker_eqb t' t && Exchange_Client.action_eqb a' a
  then fst (Quoter.check_side t' a' cur lvl) else [].
Proof.
  unfold Quoter.check_side.
  destruct cur as [| r rest]; destruct (0 <? snd lvl); cbn [andb];
    try destruct (negb _); cbn [fst filter];
    unfold order_on; cbn [Quoter.limit_order o_ticker o_action];
    destruct (ticker_eqb t' t && Exchange_Client.action_eqb a' a); reflexivity.
Qed.

Lemma filter_check_ticker cur t a (e : ticker * Quoter.quote) :
  filter (order_on t a) (fst (Quoter.check_ticker cur e)) =
  if ticker_eqb (fst e) t
  then fst (Quoter.check_side t a (resting_side a (Quoter.current_of cur t))
                              (quote_side a (snd e)))
  else [].
Proof.
  rewrite check_ticker_sides. cbn [fst snd].
  rewrite filter_app, !filter_check_side.
  destruct (ticker_eqb (fst e) t) eqn:E; cbn [andb].
  - apply ticker_eqb_eq in E. rewrite E.
    destruct a; cbn; now rewrite ?app_nil_r.
  - reflexivity.
Qed.

(** The new orders of one side are those of its entry. *)
Lemma sends_on_side cur adj t q a :
  NoDup (map fst adj) -> In (t, q) adj ->
  filter (order_on t a) (fst (Quoter.check_against_current_quotes cur adj)) =
  fst (Quoter.check_side t a (resting_side a (Quoter.current_of cur t))
                         (quote_side a q)).
Proof.
  unfold Quoter.check_against_current_quotes. cbn [fst].
  induction adj as [| e adj IH]; intros Hnd Hin; [easy |].
  cbn [map] in Hnd. apply NoDup_cons_iff in Hnd. destruct Hnd as [Hfresh Hnd].
  cbn [flat_map]. rewrite filter_app, filter_check_ticker.
  destruct Hin as [-> | Hin].
  - cbn [fst snd]. rewrite ticker_eqb_refl.
    assert (Hrest : filter (order_on t a)
                      (flat_map (fun e => fst (Quoter.check_ticker cur e)) adj) = []).
    { clear - Hfresh. cbn [fst] in Hfresh.
      induction adj as [| e adj IH]; [reflexivity |].
      cbn [flat_map]. rewrite filter_app, filter_check_ticker.
      destruct (ticker_eqb (fst e) t) eqn:E.
      - apply ticker_eqb_eq in E. exfalso. apply Hfresh. now left.
      - apply IH. intro H. apply Hfresh. now right. }
    rewrite Hrest. now rewrite app_nil_r.
  - destruct (ticker_eqb (fst e) t) eqn:E.
    + apply ticker_eqb_eq in E. exfalso. apply Hfresh. rewrite E.
      change t with (fst (t, q)). now apply in_map.
    + now apply IH.
Qed.

(** All new orders of the diff are LIMIT orders with a price. *)
Lemma check_sends_priced cur adj :
  Forall (fun o => exists p, o_price o = Some p)
         (fst (Quoter.check_against_current_quotes cur adj)).
Proof.
  apply Forall_forall. intros o Ho. apply check_sends_In in Ho.
  destruct Ho as [t [q [a [_ Ho]]]]. apply check_side_sends in Ho.
  destruct Ho as [-> _]. now eexists.
Qed.

(** The open orders after the diff stage: those not cancelled, then the
    new ones. *)
Lemma diff_stage_open_orders adj ex :
  exists news,
    Exchange_Client.open_orders (Quoter.diff_stage adj ex) =
    filter (fun o => negb (existsb (Z.eqb (Exchange_Client.order_id o))
                             (snd (Quoter.intents adj ex))))
           (Exchange_Client.open_orders ex) ++ news /\
    Forall2 rests_as (fst (Quoter.intents adj ex)) news.
Proof.
  unfold Quoter.diff_stage, Quoter.intents.
  pose proof (check_sends_priced
                (Exchange_Client.get_quotes (Exchange_Client.open_orders ex)) adj)
    as Hp.
  destruct (Quoter.check_against_current_quotes _ adj) as [sends cancels].
  cbn [fst snd] in *.
  destruct (created_open_orders sends Hp
              match cancels with
              | [] => ex
              | _ => Exchange_Client.cancel_all_orders cancels ex
              end) as [news [Hopen Hrest]].
  exists news. split; [| exact Hrest].
  rewrite Hopen, cancelled_open_orders. reflexivity.
Qed.

(** After the diff stage every side with a positive adjusted size has a
    first resting order at the adjusted price. *)
Lemma diff_stage_side_settled adj ex t q a :
  NoDup (map fst adj) ->
  NoDup (map Exchange_Client.order_id (Exchange_Client.open_orders ex)) ->
  one_per_side (Exchange_Client.open_orders ex) ->
  In (t, q) adj ->
  0 < snd (quote_side a q) ->
  exists r rest,
    resting_side a
      (Quoter.current_of
         (Exchange_Client.get_quotes
            (Exchange_Client.open_orders (Quoter.diff_stage adj ex))) t) =
    r :: rest /\
    (fst (quote_side a q) == Exchange_Client.r_price r)%Q.
Proof.
  intros Hkeys Hids Hone Hin Hpos.
  destruct (diff_stage_open_orders adj ex) as [news [Hopen Hnews]].
  rewrite resting_side_get_quotes, Hopen, filter_app, map_app, filter_swap.
  apply (rests_as_filter t a) in Hnews.
  unfold Quoter.intents in Hnews at 1.
  rewrite (sends_on_side _ adj t q a Hkeys Hin) in Hnews.
  rewrite resting_side_get_quotes in Hnews.
  set (lvl := quote_side a q) in *.
  set (cancels := snd (Quoter.intents adj ex)) in *.
  pose proof (Hone t a) as Hlen.
  destruct (filter (Exchange_Client.on_side t a) (Exchange_Client.open_orders ex))
    as [| r0 [| r1 side0]] eqn:Hside; [| | cbn in Hlen; lia].
  - (* nothing rested: the new order is the only one *)
    cbn [map Quoter.check_side] in Hnews.
    destruct (Z.ltb_spec 0 (snd lvl)); [| lia]. cbn [fst] in Hnews.
    inversion Hnews as [| o n l1 l2 Hon Hrest Ho Hn]; subst.
    cbn [filter map app].
    eexists _, _. split; [reflexivity |].
    destruct Hon as [_ [_ Hp]]. cbn in Hp. injection Hp as Hp.
    cbn. rewrite <- Hp. reflexivity.
  - cbn [map Quoter.check_side] in Hnews.
    destruct (Z.ltb_spec 0 (snd lvl)); [| lia]. cbn [andb] in Hnews.
    destruct (Qeq_bool (fst lvl)
                (Exchange_Client.r_price (Exchange_Client.to_resting r0))) eqn:E.
    + (* the resting order has the adjusted price: it is not cancelled *)
      assert (Hkeep : negb (existsb (Z.eqb (Exchange_Client.order_id r0)) cancels)
                      = true).
      { apply negb_true_iff. destruct (existsb _ cancels) eqn:Hex; [| reflexivity].
        exfalso. apply existsb_exists in Hex. destruct Hex as [id [Hid Heq]].
        apply Z.eqb_eq in Heq. subst id.
        apply check_cancels_In in Hid.
        destruct Hid as [t' [q' [a' [Hin' Hid]]]].
        apply check_side_cancels in Hid.
        destruct Hid as [r [rest [Hcur [Hr [_ Hne]]]]].
        rewrite resting_side_get_quotes in Hcur.
        assert (Hr0' : In r (map Exchange_Client.to_resting
                               (filter (Exchange_Client.on_side t' a')
                                       (Exchange_Client.open_orders ex))))
          by (rewrite Hcur; now left).
        apply in_map_iff in Hr0'. destruct Hr0' as [r0' [Hto Hr0']].
        apply filter_In in Hr0'. destruct Hr0' as [Hopen0' Hon'].
        assert (Hr0 : In r0 (filter (Exchange_Client.on_side t a)
                               (Exchange_Client.open_orders ex)))
          by (rewrite Hside; now left).
        apply filter_In in Hr0. destruct Hr0 as [Hopen0 Hon].
        assert (r0' = r0).
        { apply (NoDup_map_inj Exchange_Client.order_id _ _ _ Hids Hopen0' Hopen0).
          rewrite <- Hto in Hr. cbn in Hr. congruence. }
        subst r0'.
        apply on_side_eq in Hon, Hon'.
        destruct Hon as [Ht Ha], Hon' as [Ht' Ha'].
        rewrite Ht in Ht'. rewrite Ha in Ha'. subst t' a'.
        rewrite (NoDup_keys_unique _ _ _ _ Hkeys Hin' Hin) in Hne.
        apply Hne. apply Qeq_bool_iff. rewrite <- Hto. exact E. }
      cbn [filter]. rewrite Hkeep. cbn [map app].
      eexists _, _. split; [reflexivity |]. now apply Qeq_bool_iff.
    + (* the resting order is cancelled and replaced *)
      cbn [negb fst] in Hnews.
      assert (Hgone : negb (existsb (Z.eqb (Exchange_Client.order_id r0)) cancels)
                      = false).
      { apply negb_false_iff, existsb_exists.
        exists (Exchange_Client.order_id r0). split; [| apply Z.eqb_refl].
        apply check_cancels_In. exists t, q, a. split; [exact Hin |].
        rewrite resting_side_get_quotes, Hside. cbn [map Quoter.check_side].
        fold lvl. destruct (Z.ltb_spec 0 (snd lvl)); [| lia].
        rewrite E. cbn. now left. }
      inversion Hnews as [| o n l1 l2 Hon Hrest Ho Hn]; subst.
      cbn [filter]. rewrite Hgone. cbn [map app].
      eexists _, _. split; [reflexivity |].
      destruct Hon as [_ [_ Hp]]. cbn in Hp. injection Hp as Hp.
      cbn. rewrite <- Hp. reflexivity.
Qed.

(** C9 (as amended).  Idempotence of the diff stage.  When at most one own
    order rests on each side of each instrument (and the exchange's order
    ids and the keys of the adjusted quotes are distinct), then once the
    cancellations and new orders of a first run of the diff stage have
    taken effect, a second run with the same adjusted quotes emits no new
    order and no cancellation; and whenever the first resting order of a
    side has the adjusted price, nothing is emitted for that side. *)
Theorem diff_stage_idempotent
    (adjusted_quotes : Quoter.quotes) (ex : Exchange_Client.exchange) :
  NoDup (map fst adjusted_quotes) ->
  NoDup (map Exchange_Client.order_id (Exchange_Client.open_orders ex)) ->
  one_per_side (Exchange_Client.open_orders ex) ->
  Quoter.intents adjusted_quotes (Quoter.diff_stage adjusted_quotes ex) = ([], []) /\
  (forall t a r rest lvl,
     (fst lvl == Exchange_Client.r_price r)%Q ->
     Quoter.check_side t a (r :: rest) lvl = ([], [])).
Proof.
  intros Hkeys Hids Hone. split.
  - assert (Hquiet : forall e, In e adjusted_quotes ->
              Quoter.check_ticker
                (Exchange_Client.get_quotes
                   (Exchange_Client.open_orders
                      (Quoter.diff_stage adjusted_quotes ex))) e = ([], [])).
    { intros [t q] Hin. rewrite check_ticker_sides. cbn [fst snd].
      assert (Hside : forall a,
                Quoter.check_side t a
                  (resting_side a
                     (Quoter.current_of
                        (Exchange_Client.get_quotes
                           (Exchange_Client.open_orders
                              (Quoter.diff_stage adjusted_quotes ex))) t))
                  (quote_side a q) = ([], [])).
      { intro a. apply check_side_quiet.
        destruct (Z.lt_ge_cases 0 (snd (quote_side a q))) as [Hpos | Hle];
          [right | left; lia].
        now apply diff_stage_side_settled. }
      now rewrite !Hside. }
    unfold Quoter.intents, Quoter.check_against_current_quotes.
    f_equal; apply flat_map_nil; intros e He; now rewrite (Hquiet e He).
  - intros t a r rest lvl Hp. apply check_side_quiet. right. now exists r, rest.
Qed.

(* ------------------------------------------------------------------ *)
(** ** The properties on the example inputs *)

(** Long 25000 GEM with 12000 on offer below the interval: the first block
    is bought, the second would pass the limit of 33000 and is skipped. *)
Lemma hitter_gate_never_breaches_witness :
  Hitter.within_limits (Hitter.positions Examples.long_gem) /\
  Hitter.positions
    (Hitter.hit_to_estimates
       (Hitter.hit_to_estimate_orders Examples.sizes_gem_ask)
       Examples.long_gem) GEM = 30000 /\
  Hitter.within_limits
    (Hitter.positions
       (Hitter.hit_to_estimates
          (Hitter.hit_to_estimate_orders Examples.sizes_gem_ask)
          Examples.long_gem)).
Proof.
  assert (H : Hitter.within_limits (Hitter.positions Examples.long_gem)).
  { split; [vm_compute; discriminate |].
    intro t; destruct t; vm_compute; split; discriminate. }
  split; [exact H |]. split; [reflexivity |].
  exact (proj2 (proj2 (hitter_gate_never_breaches
                         Examples.sizes_gem_ask Examples.long_gem H))).
Defined.

Lemma hit_to_estimate_orders_blocks_witness :
  NoDup (map fst Examples.sizes_mixed) /\
  Z.of_nat (Hitter.count_orders GEM SELL (emitted Examples.sizes_mixed)) = 2 /\
  Hitter.count_orders GEM BUY (emitted Examples.sizes_mixed) = 0%nat /\
  Z.of_nat (Hitter.count_orders UB BUY (emitted Examples.sizes_mixed)) = 1.
Proof.
  assert (Hnd : NoDup (map fst Examples.sizes_mixed)).
  { cbn. repeat constructor; cbn; intuition discriminate. }
  destruct (hit_to_estimate_orders_blocks Examples.sizes_mixed Hnd)
    as [_ [Hcount _]].
  split; [exact Hnd |].
  destruct (Hcount GEM 12000 4999 (or_introl eq_refl)) as [Hs [_ [_ Hb]]].
  destruct (Hcount UB 0 5000 (or_intror (or_introl eq_refl))) as [_ [_ [Hu _]]].
  split; [apply Hs; lia |]. split; [apply Hb; lia | apply Hu; lia].
Defined.

Lemma process_news_raises_without_estimate_witness :
  exists e,
    News.process_news News.decimal_float
      [Examples.opening; Examples.empty_body; Examples.ub_43_25] = Py.Raise e.
Proof.
  refine (proj1 (process_news_raises_without_estimate News.decimal_float
                   [Examples.opening; Examples.empty_body; Examples.ub_43_25]
                   Examples.empty_body News.fresh _ _ _ _ _)).
  - right; left; reflexivity.
  - vm_compute; discriminate.
  - vm_compute; discriminate.
  - left; reflexivity.
  - vm_compute; discriminate.
Defined.

(** The same feed without the item that has no estimate is processed. *)
Example process_news_docstring_item :
  News.process_news News.decimal_float [Examples.opening; Examples.ub_43_25] =
  Py.Ok ([], [((3891 # 100)%Q, (4759 # 100)%Q)]).
Proof. vm_compute. reflexivity. Qed.

Lemma full_process_news_basket_identity_witness :
  let st := fst (News.full_process_news News.decimal_float
                   (Some [Examples.opening; Examples.ub_43_25]) News.fresh) in
  News.reachable News.decimal_float st /\ News.basket (News.estimates st).
Proof.
  intro st.
  assert (Hr : News.reachable News.decimal_float st)
    by (apply News.reachable_call, News.reachable_fresh).
  split; [exact Hr |].
  exact (proj1 (full_process_news_basket_identity News.decimal_float st Hr)).
Defined.







Lemma diff_stage_idempotent_witness :
  Quoter.intents Examples.adjusted_gem Examples.one_bid <> ([], []) /\
  Quoter.intents Examples.adjusted_gem
    (Quoter.diff_stage Examples.adjusted_gem Examples.one_bid) = ([], []).
Proof.
  split; [vm_compute; discriminate |].
  refine (proj1 (diff_stage_idempotent Examples.adjusted_gem Examples.one_bid
                   _ _ _)).
  - cbn. repeat constructor; cbn; intuition discriminate.
  - cbn. repeat constructor; cbn; intuition discriminate.
  - intros t a; destruct t, a; cbn; lia.
Defined.

(** C9, as stated, with two own bids resting on one side: the first run
    cancels the first and sends the new bid, the second run finds the
    other old bid first, cancels it and sends the new bid again. *)
Lemma diff_stage_second_run_not_empty :
  NoDup (map fst Examples.adjusted_gem_bid_12) /\
  NoDup (map Exchange_Client.order_id
           (Exchange_Client.open_orders Examples.two_bids)) /\
  Quoter.intents Examples.adjusted_gem_bid_12
    (Quoter.diff_stage Examples.adjusted_gem_bid_12 Examples.two_bids) <>
  ([], []).
Proof.
  split; [| split].
  - cbn. repeat constructor; cbn; intuition discriminate.
  - cbn. repeat constructor; cbn; intuition (try discriminate; try lia).
  - vm_compute. discriminate.
Qed.

Example diff_stage_second_run_two_bids :
  Quoter.intents Examples.adjusted_gem_bid_12
    (Quoter.diff_stage Examples.adjusted_gem_bid_12 Examples.two_bids) =
  ([Quoter.limit_order GEM (12%Q, 100) BUY], [2]).
Proof. vm_compute. reflexivity. Qed.

Lemma check_against_current_quotes_untouched_witness :
  NoDup (map fst Examples.adjusted_gem_no_bid) /\
  Quoter.check_side GEM BUY
    (resting_side BUY
       (Quoter.current_of
          (Exchange_Client.get_quotes
             (Exchange_Client.open_orders Examples.two_bids)) GEM))
    (quote_side BUY ((25%Q, 0), (26%Q, 100))) = ([], []) /\
  snd (Quoter.intents Examples.adjusted_gem_no_bid Examples.two_bids) = [].
Proof.
  split; [cbn; repeat constructor; cbn; intuition discriminate |].
  split; [| reflexivity].
  apply (proj1 (check_against_current_quotes_untouched
                  (Exchange_Client.get_quotes
                     (Exchange_Client.open_orders Examples.two_bids))
                  Examples.adjusted_gem_no_bid)).
  cbn. lia.
Defined.

(* ================================================================== *)
(** * Further properties of the code *)
(* ================================================================== *)

(* ------------------------------------------------------------------ *)
(** ** News: the processed interval *)

Lemma lt_true_lt (a b : Q) : Py.lt a b = true -> (a < b)%Q.
Proof.
  unfold Py.lt. intro H. apply negb_true_iff in H.
  apply Qnot_le_lt. intro Hle. apply Qle_bool_iff in Hle. congruence.
Qed.

Lemma max_bounds (a b : Q) : (a <= Py.max a b)%Q /\ (b <= Py.max a b)%Q.
Proof.
  unfold Py.max. destruct (Py.gt b a) eqn:E.
  - apply gt_true_lt in E. split; lra.
  - apply gt_false_le in E. split; lra.
Qed.

Lemma max_lub (a b m : Q) : (a <= m)%Q -> (b <= m)%Q -> (Py.max a b <= m)%Q.
Proof. unfold Py.max. now destruct (Py.gt b a). Qed.

Lemma min_bounds (a b : Q) : (Py.min a b <= a)%Q /\ (Py.min a b <= b)%Q.
Proof.
  unfold Py.min. destruct (Py.lt b a) eqn:E.
  - apply lt_true_lt in E. split; lra.
  - apply lt_false_le in E. split; lra.
Qed.

Lemma min_glb (a b m : Q) : (m <= a)%Q -> (m <= b)%Q -> (m <= Py.min a b)%Q.
Proof. unfold Py.min. now destruct (Py.lt b a). Qed.

Lemma max_list_bounds (xs : list Q) :
  forall x, (x <= Py.max_list x xs)%Q /\
            forall y, In y xs -> (y <= Py.max_list x xs)%Q.
Proof.
  unfold Py.max_list.
  induction xs as [| z xs IH]; intro x; cbn [fold_left].
  - split; [apply Qle_refl | easy].
  - destruct (IH (Py.max x z)) as [H1 H2].
    destruct (max_bounds x z) as [Hx Hz].
    split; [lra |]. intros y [<- | Hy]; [lra | now apply H2].
Qed.

Lemma min_list_bounds (xs : list Q) :
  forall x, (Py.min_list x xs <= x)%Q /\
            forall y, In y xs -> (Py.min_list x xs <= y)%Q.
Proof.
  unfold Py.min_list.
  induction xs as [| z xs IH]; intro x; cbn [fold_left].
  - split; [apply Qle_refl | easy].
  - destruct (IH (Py.min x z)) as [H1 H2].
    destruct (min_bounds x z) as [Hx Hz].
    split; [lra |]. intros y [<- | Hy]; [lra | now apply H2].
Qed.

Lemma max_list_app (x : Q) (xs ys : list Q) :
  (Py.max_list x xs <= Py.max_list x (xs ++ ys))%Q.
Proof.
  unfold Py.max_list. rewrite fold_left_app.
  exact (proj1 (max_list_bounds ys (fold_left Py.max xs x))).
Qed.

Lemma min_list_app (x : Q) (xs ys : list Q) :
  (Py.min_list x (xs ++ ys) <= Py.min_list x xs)%Q.
Proof.
  unfold Py.min_list. rewrite fold_left_app.
  exact (proj1 (min_list_bounds ys (fold_left Py.min xs x))).
Qed.

(** One side of [get_processed_interval]: the estimates of one ticker
    against its prior [[lo, hi]]. *)
Lemma processed_side_bounds (l : list News.interval) (lo hi : Q) :
  let g := match l with
           | [] => (lo, hi)
           | e :: es => (Py.max (Py.max_list (fst e) (map fst es)) lo,
                         Py.min (Py.min_list (snd e) (map snd es)) hi)
           end in
  (lo <= fst g)%Q /\ (snd g <= hi)%Q /\
  forall e, In e l -> (fst e <= fst g)%Q /\ (snd g <= snd e)%Q.
Proof.
  destruct l as [| e0 es]; cbn [fst snd].
  - repeat split; try apply Qle_refl; easy.
  - destruct (max_bounds (Py.max_list (fst e0) (map fst es)) lo) as [Ha Hb].
    destruct (min_bounds (Py.min_list (snd e0) (map snd es)) hi) as [Hc Hd].
    destruct (max_list_bounds (map fst es) (fst e0)) as [He Hf].
    destruct (min_list_bounds (map snd es) (snd e0)) as [Hg Hh].
    split; [exact Hb |]. split; [exact Hd |].
    intros e [<- | Hin].
    + split; lra.
    + pose proof (Hf (fst e) (in_map fst _ _ Hin)).
      pose proof (Hh (snd e) (in_map snd _ _ Hin)). split; lra.
Qed.

(** X1.  [get_processed_interval] never leaves the priors on the outside:
    the GEM low bound is at least 20 and the high bound at most 30 (UB: 40
    and 60); the low bound is at least the low bound of every estimate
    collected and the high bound at most the high bound of every one; with
    no estimate the prior itself is returned. *)
Theorem get_processed_interval_bounds (geb ub : list News.interval) :
  let g := fst (News.get_processed_interval geb ub) in
  let u := snd (News.get_processed_interval geb ub) in
  ((20 <= fst g)%Q /\ (snd g <= 30)%Q /\
   forall e, In e geb -> (fst e <= fst g)%Q /\ (snd g <= snd e)%Q) /\
  ((40 <= fst u)%Q /\ (snd u <= 60)%Q /\
   forall e, In e ub -> (fst e <= fst u)%Q /\ (snd u <= snd e)%Q) /\
  fst (News.get_processed_interval [] ub) = (20, 30)%Q /\
  snd (News.get_processed_interval geb []) = (40, 60)%Q.
Proof.
  unfold News.get_processed_interval. cbn [fst snd].
  split; [apply (processed_side_bounds geb 20 30) |].
  split; [apply (processed_side_bounds ub 40 60) |].
  split; reflexivity.
Qed.

Lemma processed_side_narrows (l more : list News.interval) (lo hi : Q) :
  let side l := match l with
                | [] => (lo, hi)
                | e :: es => (Py.max (Py.max_list (fst e) (map fst es)) lo,
                              Py.min (Py.min_list (snd e) (map snd es)) hi)
                end in
  (fst (side l) <= fst (side (l ++ more)))%Q /\
  (snd (side (l ++ more)) <= snd (side l))%Q.
Proof.
  intro side. destruct l as [| e0 es].
  - cbn [app]. destruct (processed_side_bounds more lo hi) as [H1 [H2 _]].
    subst side. cbn [fst snd] in *. split; assumption.
  - subst side. cbn [app fst snd]. rewrite !map_app.
    pose proof (max_list_app (fst e0) (map fst es) (map fst more)) as Hmax.
    pose proof (min_list_app (snd e0) (map snd es) (map snd more)) as Hmin.
    split.
    + apply max_lub.
      * eapply Qle_trans; [exact Hmax | exact (proj1 (max_bounds _ _))].
      * exact (proj2 (max_bounds _ _)).
    + apply min_glb.
      * eapply Qle_trans; [exact (proj1 (min_bounds _ _)) | exact Hmin].
      * exact (proj2 (min_bounds _ _)).
Qed.

(** Appending estimates to the lists of [get_processed_interval] only
    narrows the intervals. *)
Lemma get_processed_interval_narrows
    (geb ub more_geb more_ub : list News.interval) :
  let before := News.get_processed_interval geb ub in
  let after := News.get_processed_interval (geb ++ more_geb) (ub ++ more_ub) in
  (fst (fst before) <= fst (fst after))%Q /\
  (snd (fst after) <= snd (fst before))%Q /\
  (fst (snd before) <= fst (snd after))%Q /\
  (snd (snd after) <= snd (snd before))%Q.
Proof.
  unfold News.get_processed_interval. cbn [fst snd].
  destruct (processed_side_narrows geb more_geb 20 30) as [H1 H2].
  destruct (processed_side_narrows ub more_ub 40 60) as [H3 H4].
  cbv zeta in H1, H2, H3, H4. repeat split; assumption.
Qed.

(* ------------------------------------------------------------------ *)
(** ** News: which feeds are processed *)

Lemma length_zero_empty (s : string) :
  (0 <? String.length s)%nat = false <-> s = EmptyString.
Proof. destruct s; cbn; split; intro H; try reflexivity; discriminate. Qed.

Lemma has_or_no_estimate float news :
  has_estimate float news \/ no_estimate float news.
Proof.
  unfold has_estimate, no_estimate. cbv zeta.
  destruct (News.body news) eqn:Hb; [right; now left |].
  destruct (Py.strip _) eqn:Hs; [right; right; now left |].
  destruct (float _) as [x |] eqn:Hf.
  - left. repeat split; try discriminate. now exists x.
  - right. right. now right.
Qed.

Lemma has_estimate_parse float news :
  has_estimate float news ->
  exists x,
    News.parse_news_item float news =
    Py.Ok (News.tick news + 1,
           if Py.contains "GEM" (News.headline news) then Some GEM
           else if Py.contains "UB" (News.headline news) then Some UB
           else None,
           Some x).
Proof.
  intros [Hb [Hs [x Hx]]]. exists x.
  rewrite parse_news_item_estimate. cbv zeta.
  destruct (0 <? String.length (News.body news))%nat eqn:E1;
    [| apply length_zero_empty in E1; contradiction].
  destruct (0 <? String.length
                   (Py.strip (Py.after_last "$" (News.body news))))%nat eqn:E2;
    [| apply length_zero_empty in E2; contradiction].
  now rewrite Hx.
Qed.

(** The loop on a feed where every item that is not passed over has an
    estimate: it ends, and appends one interval per GEM item and per UB
    item. *)
Lemma process_news_from_ok float (l : list News.news_item) :
  (forall news, In news l -> sentinel news = false -> has_estimate float news) ->
  forall geb ub, exists geb' ub',
    News.process_news_from float l geb ub = Py.Ok (geb ++ geb', ub ++ ub') /\
    List.length geb' =
      List.length (filter (fun n => negb (sentinel n) && about_gem n) l) /\
    List.length ub' =
      List.length (filter (fun n => negb (sentinel n) && about_ub n) l).
Proof.
  induction l as [| n l IH]; intros Hall geb ub.
  - exists [], []. cbn. now rewrite !app_nil_r.
  - assert (Hrest : forall news, In news l -> sentinel news = false ->
                                 has_estimate float news)
      by (intros news Hin; apply Hall; now right).
    cbn [News.process_news_from filter]. fold (sentinel n).
    destruct (sentinel n) eqn:Hsent; cbn [negb andb].
    + apply IH, Hrest.
    + destruct (has_estimate_parse float n (Hall n (or_introl eq_refl) Hsent))
        as [x Hp].
      rewrite Hp. cbn [Py.bind News.calculate_estimate_interval].
      unfold about_gem, about_ub.
      destruct (Py.contains "GEM" (News.headline n)); cbn [negb andb].
      * match goal with
        | |- context [News.process_news_from float l ?g ?u] =>
            destruct (IH Hrest g u) as [g' [u' [Hok [Hg Hu]]]]
        end.
        eexists (_ :: g'), u'. rewrite Hok, <- app_assoc. cbn [app List.length].
        repeat split; [now rewrite Hg | exact Hu].
      * destruct (Py.contains "UB" (News.headline n)).
        -- match goal with
           | |- context [News.process_news_from float l ?g ?u] =>
               destruct (IH Hrest g u) as [g' [u' [Hok [Hg Hu]]]]
           end.
           eexists g', (_ :: u'). rewrite Hok, <- app_assoc. cbn [app List.length].
           repeat split; [exact Hg | now rewrite Hu].
        -- apply IH, Hrest.
Qed.

(** X2.  Which feeds are processed.  [process_news] returns its two
    lists exactly when every item other than the announcements with ids 1
    and 12 has a body that yields a number; it then returns one interval
    for each such item whose headline names GEM, and one for each whose
    headline names UB and not GEM. *)
Theorem process_news_ok_iff (float : string -> option Q)
    (news_data : list News.news_item) :
  ((forall news, In news news_data -> sentinel news = false ->
                 has_estimate float news) <->
   exists geb ub, News.process_news float news_data = Py.Ok (geb, ub)) /\
  (forall geb ub,
     News.process_news float news_data = Py.Ok (geb, ub) ->
     List.length geb =
       List.length (filter (fun n => negb (sentinel n) && about_gem n) news_data) /\
     List.length ub =
       List.length (filter (fun n => negb (sentinel n) && about_ub n) news_data)).
Proof.
  assert (Hback : forall geb ub,
            News.process_news float news_data = Py.Ok (geb, ub) ->
            forall news, In news news_data -> sentinel news = false ->
                         has_estimate float news).
  { intros geb ub Hok news Hin Hsent.
    destruct (has_or_no_estimate float news) as [H | Hno]; [exact H |].
    exfalso. unfold sentinel in Hsent. apply orb_false_iff in Hsent.
    destruct Hsent as [H1 H12]. apply Z.eqb_neq in H1, H12.
    destruct (process_news_from_raises float news_data news Hin H1 H12 Hno [] [])
      as [e He].
    unfold News.process_news in Hok. congruence. }
  split; [split |].
  - intro Hall.
    destruct (process_news_from_ok float news_data Hall [] [])
      as [g [u [Hok _]]].
    now exists g, u.
  - intros [geb [ub Hok]]. now apply (Hback geb ub).
  - intros geb ub Hok.
    destruct (process_news_from_ok float news_data (Hback geb ub Hok) [] [])
      as [g [u [Hok' [Hg Hu]]]].
    unfold News.process_news in Hok. rewrite Hok in Hok'. cbn [app] in Hok'.
    injection Hok' as -> ->. now split.
Qed.

Lemma process_news_from_sentinels float (l : list News.news_item) :
  forall geb ub,
    News.process_news_from float l geb ub =
    News.process_news_from float (filter (fun n => negb (sentinel n)) l) geb ub.
Proof.
  induction l as [| n l IH]; intros geb ub; [reflexivity |].
  cbn [filter]. destruct (sentinel n) eqn:Hs; cbn [negb].
  - cbn [News.process_news_from]. fold (sentinel n). rewrite Hs. apply IH.
  - cbn [News.process_news_from]. fold (sentinel n). rewrite Hs.
    destruct (News.parse_news_item float n) as [[[time_ tk] est] | e];
      cbn [Py.bind]; [| reflexivity].
    destruct (News.calculate_estimate_interval time_ est) as [iv | e];
      cbn [Py.bind]; [| reflexivity].
    destruct tk as [[| |] |]; apply IH.
Qed.

Lemma process_news_from_app float (l more : list News.news_item) :
  forall geb ub,
    News.process_news_from float (l ++ more) geb ub =
    Py.bind (News.process_news_from float l geb ub)
            (fun r => News.process_news_from float more (fst r) (snd r)).
Proof.
  induction l as [| n l IH]; intros geb ub; [reflexivity |].
  cbn [app News.process_news_from].
  destruct ((News.news_id n =? 1) || (News.news_id n =? 12)); [apply IH |].
  destruct (News.parse_news_item float n) as [[[time_ tk] est] | e];
    cbn [Py.bind]; [| reflexivity].
  destruct (News.calculate_estimate_interval time_ est) as [iv | e];
    cbn [Py.bind]; [| reflexivity].
  destruct tk as [[| |] |]; apply IH.
Qed.

Lemma process_news_from_extends float (l : list News.news_item) :
  forall geb ub geb' ub',
    News.process_news_from float l geb ub = Py.Ok (geb', ub') ->
    exists dg du, geb' = geb ++ dg /\ ub' = ub ++ du.
Proof.
  induction l as [| n l IH]; intros geb ub geb' ub' H.
  - cbn in H. injection H as <- <-. exists [], []. now rewrite !app_nil_r.
  - cbn [News.process_news_from] in H.
    destruct ((News.news_id n =? 1) || (News.news_id n =? 12)); [now apply IH |].
    destruct (News.parse_news_item float n) as [[[time_ tk] est] | e];
      cbn [Py.bind] in H; [| discriminate].
    destruct (News.calculate_estimate_interval time_ est) as [iv | e];
      cbn [Py.bind] in H; [| discriminate].
    destruct tk as [[| |] |].
    + destruct (IH _ _ _ _ H) as [dg [du [-> ->]]].
      exists (iv :: dg), du. now rewrite <- app_assoc.
    + destruct (IH _ _ _ _ H) as [dg [du [-> ->]]].
      exists dg, (iv :: du). now rewrite <- app_assoc.
    + now apply IH.
    + now apply IH.
Qed.

(** X3.  The announcements never count, and more news only narrows.
    [process_news] gives the same result, or raises the same way, on a
    feed and on the feed without the items of ids 1 and 12, whatever those
    items hold; and when a feed and the feed extended by further items are
    both processed, the intervals [get_processed_interval] makes of the
    longer feed lie inside those of the shorter one. *)
Theorem process_news_sentinels_and_growth (float : string -> option Q)
    (news_data more : list News.news_item) :
  News.process_news float news_data =
  News.process_news float (filter (fun n => negb (sentinel n)) news_data) /\
  (forall geb ub geb' ub',
     News.process_news float news_data = Py.Ok (geb, ub) ->
     News.process_news float (news_data ++ more) = Py.Ok (geb', ub') ->
     let before := News.get_processed_interval geb ub in
     let after := News.get_processed_interval geb' ub' in
     (fst (fst before) <= fst (fst after))%Q /\
     (snd (fst after) <= snd (fst before))%Q /\
     (fst (snd before) <= fst (snd after))%Q /\
     (snd (snd after) <= snd (snd before))%Q).
Proof.
  split; [apply process_news_from_sentinels |].
  intros geb ub geb' ub' Hok Hmore.
  unfold News.process_news in Hok, Hmore.
  rewrite process_news_from_app, Hok in Hmore. cbn [Py.bind fst snd] in Hmore.
  destruct (process_news_from_extends float more _ _ _ _ Hmore)
    as [dg [du [-> ->]]].
  apply get_processed_interval_narrows.
Qed.

(* ------------------------------------------------------------------ *)
(** ** News: the cache of estimates *)

Lemma full_process_news_length float news st :
  News.news_length (fst (News.full_process_news float (Some news) st)) =
  Z.of_nat (List.length news).
Proof.
  unfold News.full_process_news, News.get_latest_news.
  destruct (Z.eqb_spec (Z.of_nat (List.length news)) (News.news_length st))
    as [E | N]; cbn.
  - now rewrite E.
  - destruct (News.process_news float news) as [[geb ub] | e]; cbn;
      [| reflexivity].
    now destruct (News.get_processed_interval geb ub).
Qed.

Lemma full_process_news_flag float news st :
  News.new_news (fst (News.full_process_news float (Some news) st)) =
  negb (Z.of_nat (List.length news) =? News.news_length st).
Proof.
  unfold News.full_process_news, News.get_latest_news.
  destruct (Z.of_nat (List.length news) =? News.news_length st); cbn;
    [reflexivity |].
  destruct (News.process_news float news) as [[geb ub] | e]; cbn;
    [| reflexivity].
  now destruct (News.get_processed_interval geb ub).
Qed.

(** X4.  The cache after a call.  Whatever a call of
    [full_process_news] on a fetched feed did (returned or raised), the
    next call on a feed of the same length returns the stored estimates
    without processing anything, and stores nothing new; so a feed with an
    item that made the first call raise is answered from the old estimates
    the second time. *)
Theorem full_process_news_same_length (float : string -> option Q)
    (news news' : list News.news_item) (st : News.state) :
  List.length news' = List.length news ->
  let st1 := fst (News.full_process_news float (Some news) st) in
  snd (News.full_process_news float (Some news') st1) =
    Py.Ok (News.estimates st1) /\
  News.estimates (fst (News.full_process_news float (Some news') st1)) =
    News.estimates st1 /\
  News.new_news (fst (News.full_process_news float (Some news') st1)) = false.
Proof.
  intros Hlen st1.
  pose proof (full_process_news_length float news st) as Hl. fold st1 in Hl.
  clearbody st1.
  unfold News.full_process_news, News.get_latest_news.
  rewrite Hl, Hlen, Z.eqb_refl. cbn. repeat split.
Qed.

(** X5.  A failed fetch.  When the news endpoint does not answer 200,
    [full_process_news] keeps its state; it returns the stored estimates
    if the call before had found the feed unchanged in length, and raises
    [TypeError] (it iterates over [None]) if the call before had found a
    feed of a new length. *)
Theorem full_process_news_failed_fetch (float : string -> option Q)
    (news : list News.news_item) (st : News.state) :
  let st1 := fst (News.full_process_news float (Some news) st) in
  fst (News.full_process_news float None st1) = st1 /\
  snd (News.full_process_news float None st1) =
    if Z.of_nat (List.length news) =? News.news_length st
    then Py.Ok (News.estimates st1)
    else Py.Raise Py.TypeError.
Proof.
  intro st1.
  pose proof (full_process_news_flag float news st) as Hf. fold st1 in Hf.
  clearbody st1.
  unfold News.full_process_news, News.get_latest_news.
  rewrite Hf.
  destruct (Z.of_nat (List.length news) =? News.news_length st); cbn;
    split; reflexivity.
Qed.

(* ------------------------------------------------------------------ *)
(** ** Expected values and the ratio *)



(* ------------------------------------------------------------------ *)
(** ** Consolidation keeps the sizes *)

Lemma level_sum_cons P (x : level) d :
  level_sum P (x :: d) = (if P (fst x) then snd x else 0) + level_sum P d.
Proof. unfold level_sum. cbn. destruct (P (fst x)); lia. Qed.

Lemma order_sum_cons P (o : Exchange_Client.raw_order) side :
  order_sum P (o :: side) =
  (if P (Exchange_Client.price o) then Exchange_Client.unfilled o else 0)
  + order_sum P side.
Proof. unfold order_sum. cbn. destruct (P (Exchange_Client.price o)); lia. Qed.

Lemma level_sum_dict_add P (q : Q) (s : Z) (d : list level) :
  by_value P ->
  level_sum P (Exchange_Client.dict_add q s d) =
  level_sum P d + (if P q then s else 0).
Proof.
  intro HP. induction d as [| [p' s'] d IH]; cbn [Exchange_Client.dict_add].
  - rewrite level_sum_cons. cbn. lia.
  - destruct (Qeq_bool p' q) eqn:E; rewrite !level_sum_cons; cbn [fst snd].
    + apply Qeq_bool_iff in E. rewrite (HP p' q E). destruct (P q); lia.
    + rewrite IH. lia.
Qed.

Lemma level_sum_consolidate P (side : list Exchange_Client.raw_order) :
  by_value P ->
  level_sum P (Exchange_Client.consolidate side) = order_sum P side.
Proof.
  intro HP. unfold Exchange_Client.consolidate.
  assert (H : forall d,
             level_sum P
               (fold_left
                  (fun d o => Exchange_Client.dict_add (Exchange_Client.price o)
                                (Exchange_Client.unfilled o) d) side d) =
             level_sum P d + order_sum P side).
  { induction side as [| o side IH]; intro d; cbn [fold_left].
    - unfold order_sum. cbn. lia.
    - rewrite IH, level_sum_dict_add, order_sum_cons by exact HP. lia. }
  rewrite H. reflexivity.
Qed.

Lemma level_sum_insert P le (x : level) (l : list level) :
  level_sum P (Exchange_Client.insert le x l) = level_sum P (x :: l).
Proof.
  induction l as [| y l IH]; cbn [Exchange_Client.insert]; [reflexivity |].
  destruct (le x y); [reflexivity |].
  rewrite level_sum_cons, IH, !level_sum_cons. lia.
Qed.

Lemma level_sum_sorted_by P le (l : list level) :
  level_sum P (Exchange_Client.sorted_by le l) = level_sum P l.
Proof.
  induction l as [| x l IH]; [reflexivity |].
  change (Exchange_Client.sorted_by le (x :: l))
    with (Exchange_Client.insert le x (Exchange_Client.sorted_by le l)).
  rewrite level_sum_insert, !level_sum_cons, IH. reflexivity.
Qed.

(** X7.  Consolidation loses nothing.  For every raw book, whether or not
    own orders were filtered, [get_consolidated_orderbook] returns bids by
    strictly descending and asks by strictly ascending price, and for
    every set of prices the sizes of its levels in the set add up to the
    unfilled quantity of the raw orders priced in the set; in particular
    the total size of a side is the total unfilled quantity of its
    orders. *)
Theorem get_consolidated_orderbook_conserves
    (orderbook : ticker -> Exchange_Client.raw_book) (t : ticker) :
  let out := Exchange_Client.get_consolidated_orderbook orderbook t in
  StronglySorted descending (bids out) /\
  StronglySorted ascending (asks out) /\
  (forall P, by_value P ->
     level_sum P (bids out) =
       order_sum P (Exchange_Client.raw_bids (orderbook t)) /\
     level_sum P (asks out) =
       order_sum P (Exchange_Client.raw_asks (orderbook t))).
Proof.
  cbv zeta. unfold Exchange_Client.get_consolidated_orderbook. cbn [bids asks].
  split; [| split].
  - apply sorted_reverse_descending, consolidate_spec.
  - apply sorted_ascending, consolidate_spec.
  - intros P HP. unfold Exchange_Client.sorted_reverse, Exchange_Client.sorted.
    rewrite !level_sum_sorted_by, !level_sum_consolidate by exact HP.
    split; reflexivity.
Qed.

(* ------------------------------------------------------------------ *)
(** ** Hitter: the size to hit *)

Lemma level_sum_none P (l : list level) :
  (forall x, In x l -> P (fst x) = false) -> level_sum P l = 0.
Proof.
  induction l as [| x l IH]; intro H; [reflexivity |].
  rewrite level_sum_cons, (H x) by now left.
  rewrite IH; [reflexivity |]. intros y Hy. apply H. now right.
Qed.

Lemma size_until_descending (bound : Q) (l : list level) :
  StronglySorted descending l ->
  Hitter_run.size_until (fun price => Py.lt price bound) l =
  level_sum (at_or_above bound) l.
Proof.
  induction 1 as [| [p s] l Hl IH Hall]; [reflexivity |].
  cbn [Hitter_run.size_until]. rewrite level_sum_cons. cbn [fst snd].
  unfold at_or_above at 1.
  destruct (Py.lt p bound) eqn:E; cbn [negb].
  - rewrite level_sum_none; [reflexivity |].
    intros x Hx. rewrite Forall_forall in Hall. specialize (Hall x Hx).
    unfold descending in Hall. cbn [fst] in Hall. apply lt_true_lt in E.
    unfold at_or_above. apply negb_false_iff.
    unfold Py.lt. apply negb_true_iff.
    destruct (Qle_bool bound (fst x)) eqn:Hle; [| reflexivity].
    apply Qle_bool_iff in Hle. lra.
  - now rewrite IH.
Qed.

Lemma size_until_ascending (bound : Q) (l : list level) :
  StronglySorted ascending l ->
  Hitter_run.size_until (fun price => Py.gt price bound) l =
  level_sum (at_or_below bound) l.
Proof.
  induction 1 as [| [p s] l Hl IH Hall]; [reflexivity |].
  cbn [Hitter_run.size_until]. rewrite level_sum_cons. cbn [fst snd].
  unfold at_or_below at 1.
  destruct (Py.gt p bound) eqn:E; cbn [negb].
  - rewrite level_sum_none; [reflexivity |].
    intros x Hx. rewrite Forall_forall in Hall. specialize (Hall x Hx).
    unfold ascending in Hall. cbn [fst] in Hall. apply gt_true_lt in E.
    unfold at_or_below. apply negb_false_iff.
    unfold Py.gt. apply negb_true_iff.
    destruct (Qle_bool (fst x) bound) eqn:Hle; [| reflexivity].
    apply Qle_bool_iff in Hle. lra.
  - now rewrite IH.
Qed.

Lemma at_or_above_by_value bound : by_value (at_or_above bound).
Proof.
  intros a b E. unfold at_or_above, Py.lt. f_equal. f_equal.
  destruct (Qle_bool bound b) eqn:Hb.
  - apply Qle_bool_iff. apply Qle_bool_iff in Hb. now rewrite E.
  - destruct (Qle_bool bound a) eqn:Ha; [| reflexivity].
    apply Qle_bool_iff in Ha. rewrite E in Ha. apply Qle_bool_iff in Ha.
    congruence.
Qed.

Lemma at_or_below_by_value bound : by_value (at_or_below bound).
Proof.
  intros a b E. unfold at_or_below, Py.gt. f_equal. f_equal.
  destruct (Qle_bool b bound) eqn:Hb.
  - apply Qle_bool_iff. apply Qle_bool_iff in Hb. now rewrite E.
  - destruct (Qle_bool a bound) eqn:Ha; [| reflexivity].
    apply Qle_bool_iff in Ha. rewrite E in Ha. apply Qle_bool_iff in Ha.
    congruence.
Qed.

(** X8.  The size to hit, on the consolidated book.  On the book that
    [get_consolidated_orderbook] returns, [get_size_to_price] for the bid
    side is the whole unfilled quantity of the raw bids priced at or above
    the estimate, and for the ask side that of the raw asks priced at or
    below it: stopping at the first level beyond the bound leaves nothing
    out, because the sides are sorted. *)
Theorem get_size_to_price_consolidated
    (orderbook : ticker -> Exchange_Client.raw_book) (t : ticker) (estimate : Q) :
  let cb := Exchange_Client.get_consolidated_orderbook orderbook in
  Hitter_run.get_size_to_price t cb estimate Hitter_run.Bid =
    order_sum (at_or_above estimate) (Exchange_Client.raw_bids (orderbook t)) /\
  Hitter_run.get_size_to_price t cb estimate Hitter_run.Ask =
    order_sum (at_or_below estimate) (Exchange_Client.raw_asks (orderbook t)).
Proof.
  cbv zeta. unfold Hitter_run.get_size_to_price.
  unfold Exchange_Client.get_consolidated_orderbook. cbn [bids asks].
  split.
  - rewrite size_until_descending
      by apply sorted_reverse_descending, consolidate_spec.
    unfold Exchange_Client.sorted_reverse.
    rewrite level_sum_sorted_by, level_sum_consolidate
      by apply at_or_above_by_value.
    reflexivity.
  - rewrite size_until_ascending
      by apply sorted_ascending, consolidate_spec.
    unfold Exchange_Client.sorted.
    rewrite level_sum_sorted_by, level_sum_consolidate
      by apply at_or_below_by_value.
    reflexivity.
Qed.

(* ------------------------------------------------------------------ *)
(** ** Hitter: what [run] sends *)

Lemma orders_for_side (t : ticker) (b a : Z) (o : order) :
  In o (Hitter.orders_for (t, (b, a))) ->
  o_ticker o = t /\
  (o_action o = SELL /\ 0 < b \/ o_action o = BUY /\ 0 < a).
Proof.
  unfold Hitter.orders_for. intro H. apply in_app_or in H.
  destruct H as [H | H].
  - destruct (Z.ltb_spec 0 b); [| easy].
    apply repeat_range_In in H. subst o. cbn. auto.
  - destruct (Z.ltb_spec 0 a); [| easy].
    apply repeat_range_In in H. subst o. cbn. auto.
Qed.

Lemma size_until_positive stop (l : list level) :
  0 < Hitter_run.size_until stop l ->
  exists p s rest, l = (p, s) :: rest /\ stop p = false.
Proof.
  destruct l as [| [p s] rest]; cbn; [lia |].
  destruct (stop p) eqn:E; [lia |]. intros _. now exists p, s, rest.
Qed.

Lemma total_size_keys cb est mis :
  map fst (Hitter_run.get_total_size cb est mis) = [GEM; UB; ETF].
Proof. reflexivity. Qed.

Lemma total_size_In cb est mis t :
  In (t, Hitter_run.total_size_of t cb est mis)
     (Hitter_run.get_total_size cb est mis).
Proof. unfold Hitter_run.get_total_size. destruct t; cbn; auto. Qed.

Lemma total_size_entry cb est mis t x :
  In (t, x) (Hitter_run.get_total_size cb est mis) ->
  x = Hitter_run.total_size_of t cb est mis.
Proof.
  unfold Hitter_run.get_total_size.
  intros [H | [H | [H | []]]]; injection H as <- <-; reflexivity.
Qed.

Lemma NoDup_tickers : NoDup [GEM; UB; ETF].
Proof. repeat constructor; cbn; intuition discriminate. Qed.

(** X9.  What the hitter sends.  Every order that [run] hands to the
    gate is a MARKET order of 5000; a SELL for an instrument is sent only
    if its bid side is not empty and its best bid is above the upper
    bound of the estimate, a BUY only if its ask side is not empty and its
    best ask is below the lower bound; the SELL orders for an instrument
    never add up to more than [get_size_to_price] found on its bid side
    and the BUY orders to no more than it found on its ask side. *)
Theorem run_orders_into_mispricing
    (cb : ticker -> book) (estimates : ticker -> Q * Q) :
  let orders := match Hitter_run.run_orders cb estimates with
                | Some l => l
                | None => []
                end in
  (forall o, In o orders ->
     o_type o = MARKET /\ o_quantity o = 5000 /\
     match o_action o with
     | SELL => exists p s rest,
                 bids (cb (o_ticker o)) = (p, s) :: rest /\
                 (snd (estimates (o_ticker o)) < p)%Q
     | BUY => exists p s rest,
                asks (cb (o_ticker o)) = (p, s) :: rest /\
                (p < fst (estimates (o_ticker o)))%Q
     end) /\
  (forall t,
     Z.of_nat (Hitter.count_orders t SELL orders) * 5000 <=
       Z.max 0 (Hitter_run.get_size_to_price t cb (snd (estimates t))
                                             Hitter_run.Bid) /\
     Z.of_nat (Hitter.count_orders t BUY orders) * 5000 <=
       Z.max 0 (Hitter_run.get_size_to_price t cb (fst (estimates t))
                                             Hitter_run.Ask)).
Proof.
  intro orders.
  set (mis := Hitter_run.check_orderbook_mispricing cb estimates).
  set (ts := Hitter_run.get_total_size cb estimates mis).
  assert (Horders : orders = flat_map Hitter.orders_for ts).
  { subst orders. unfold Hitter_run.run_orders. fold mis. fold ts.
    apply emitted_flat_map. }
  split.
  - intros o Ho. rewrite Horders in Ho.
    pose proof (emitted_shape ts o Ho) as [Hty [_ Hq]].
    split; [exact Hty |]. split; [exact Hq |].
    apply in_flat_map in Ho. destruct Ho as [[t [b a]] [Hin Ho]].
    apply total_size_entry in Hin.
    apply orders_for_side in Ho. destruct Ho as [Ht Hside]. rewrite Ht.
    unfold Hitter_run.total_size_of in Hin. injection Hin as Hb Ha.
    unfold mis, Hitter_run.check_orderbook_mispricing in Hb, Ha.
    destruct (estimates t) as [lower upper] eqn:Hest. cbn [fst snd] in *.
    destruct Hside as [[-> Hpos] | [-> Hpos]].
    + rewrite Hb in Hpos. destruct (Py.gt _ upper) eqn:Hgt; [| lia].
      unfold Hitter_run.get_size_to_price in Hpos.
      apply size_until_positive in Hpos.
      destruct Hpos as [p [s [rest [Hbids _]]]].
      rewrite Hbids in Hgt. cbn [fst] in Hgt. apply gt_true_lt in Hgt.
      now exists p, s, rest.
    + rewrite Ha in Hpos. destruct (Py.lt _ lower) eqn:Hlt; [| lia].
      unfold Hitter_run.get_size_to_price in Hpos.
      apply size_until_positive in Hpos.
      destruct Hpos as [p [s [rest [Hasks _]]]].
      rewrite Hasks in Hlt. cbn [fst] in Hlt. apply lt_true_lt in Hlt.
      now exists p, s, rest.
  - intro t. rewrite Horders.
    assert (Hnd : NoDup (map fst ts)) by exact NoDup_tickers.
    destruct (count_orders_present t _ _ ts Hnd (total_size_In cb estimates mis t))
      as [Hs Hb].
    rewrite Hs, Hb. unfold Hitter_run.total_size_of. cbn [fst snd].
    assert (Hblocks : forall size, Z.of_nat (blocks size) * 5000 <= Z.max 0 size).
    { intro size. destruct (Z.le_gt_cases 0 size) as [Hge | Hlt].
      - rewrite (proj1 (blocks_floor size) Hge).
        pose proof (Z.mul_div_le size 5000 ltac:(lia)). lia.
      - rewrite (proj2 (blocks_floor size)) by lia. lia. }
    split.
    + destruct (fst (mis t)); [apply Hblocks |]. cbn. lia.
    + destruct (snd (mis t)); [apply Hblocks |]. cbn. lia.
Qed.

(* ------------------------------------------------------------------ *)
(** ** Hitter: the gate rejects only what would breach *)

Lemma admitted_if_within (p : ticker -> Z) (o : order) :
  0 <= o_quantity o ->
  Hitter.within_limits (Hitter.execute p o) ->
  Hitter.admitted p o = true.
Proof.
  intros Hq [Hg Hl]. specialize (Hl (o_ticker o)).
  unfold Hitter.admitted.
  unfold Hitter.gross_positions, Hitter.execute in *.
  rewrite ticker_eqb_refl in Hl.
  destruct o as [t ty pr q a]. cbn [o_ticker o_action o_quantity] in *.
  destruct a; cbv beta iota zeta;
    [destruct (Z.leb_spec 0 (p t)) | destruct (Z.ltb_spec 0 (p t))];
    repeat match goal with
           | |- context [?x <? ?y] => destruct (Z.ltb_spec x y)
           end;
    try reflexivity; exfalso;
    destruct t; unfold ticker_eqb in Hg; lia.
Qed.

(** X10.  The gate is exact on blocks.  The gate of [hit_to_estimates]
    never skips an order (of a quantity that is not negative) whose full
    execution would keep the gross position at or below 100000 and the
    instrument within its limit; so from positions within the limits, a
    block of 5000 is admitted exactly when its execution keeps the
    limits. *)
Theorem gate_admits_exactly (p : ticker -> Z) (o : order) :
  (0 <= o_quantity o ->
   Hitter.within_limits (Hitter.execute p o) ->
   Hitter.admitted p o = true) /\
  (Hitter.within_limits p -> o_quantity o = 5000 ->
   (Hitter.admitted p o = true <->
    Hitter.within_limits (Hitter.execute p o))).
Proof.
  split; [apply admitted_if_within |].
  intros Hw Hq. split.
  - now apply admitted_block_within_limits.
  - apply admitted_if_within. lia.
Qed.

(* ------------------------------------------------------------------ *)
(** ** Quoter: competitive quotes stay inside the interval *)








(* ------------------------------------------------------------------ *)
(** ** Quoter: the skew at and within the limits *)



(* ------------------------------------------------------------------ *)
(** ** Quoter: what a quoting cycle sends *)





Lemma check_side_lengths t a cur lvl :
  (List.length (snd (Quoter.check_side t a cur lvl))
   <= List.length (fst (Quoter.check_side t a cur lvl)) <= 1)%nat.
Proof.
  unfold Quoter.check_side.
  destruct cur as [| r rest]; destruct (0 <? snd lvl); cbn [andb];
    try destruct (negb _); cbn; lia.
Qed.

(** X14.  Cancellations come with replacements.  In the result of
    [check_against_current_quotes] there are never more cancellations
    than new orders, and never more than two new orders per quoted
    instrument; when the keys of the adjusted quotes are distinct there is
    at most one new order for each instrument and side. *)
Theorem check_against_current_quotes_counts
    (current_quotes : ticker -> option Exchange_Client.side_quotes)
    (adjusted_quotes : Quoter.quotes) :
  let r := Quoter.check_against_current_quotes current_quotes adjusted_quotes in
  (List.length (snd r) <= List.length (fst r) <= 2 * List.length adjusted_quotes)%nat /\
  (NoDup (map fst adjusted_quotes) ->
   forall t a, (List.length (filter (order_on t a) (fst r)) <= 1)%nat).
Proof.
  cbv zeta. split.
  - unfold Quoter.check_against_current_quotes. cbn [fst snd].
    induction adjusted_quotes as [| e adj IH]; [cbn; lia |].
    cbn [flat_map List.length]. rewrite !length_app.
    rewrite check_ticker_sides. cbn [fst snd]. rewrite !length_app.
    pose proof (check_side_lengths (fst e) BUY
                  (resting_side BUY (Quoter.current_of current_quotes (fst e)))
                  (quote_side BUY (snd e))).
    pose proof (check_side_lengths (fst e) SELL
                  (resting_side SELL (Quoter.current_of current_quotes (fst e)))
                  (quote_side SELL (snd e))).
    lia.
  - intros Hnd t a.
    assert (Hdec : forall x y : ticker, {x = y} + {x <> y})
      by decide equality.
    destruct (in_dec Hdec t (map fst adjusted_quotes)) as [Hin | Hout].
    + apply in_map_iff in Hin. destruct Hin as [[t' q] [Ht Hin]].
      cbn [fst] in Ht. subst t'.
      rewrite (sends_on_side _ adjusted_quotes t q a Hnd Hin).
      apply check_side_lengths.
    + rewrite (proj2 (List.length_zero_iff_nil _)); [lia |].
      destruct (filter _ _) as [| o l] eqn:E; [reflexivity |].
      exfalso. assert (Ho : In o (o :: l)) by now left.
      rewrite <- E in Ho. apply filter_In in Ho. destruct Ho as [Ho Hon].
      apply check_sends_In in Ho. destruct Ho as [t' [q [a' [Hin Ho]]]].
      apply check_side_sends in Ho. destruct Ho as [-> _].
      unfold order_on in Hon. cbn in Hon. apply andb_true_iff in Hon.
      destruct Hon as [Ht _]. apply ticker_eqb_eq in Ht. subst t'.
      apply Hout. change t with (fst (t, q)). now apply in_map.
Qed.

(* ------------------------------------------------------------------ *)
(** ** Client: the best bid and offer *)

Lemma size_at_ge_member (p : Q) (side : list Exchange_Client.raw_order)
    (o : Exchange_Client.raw_order) :
  (forall o', In o' side -> 0 <= Exchange_Client.unfilled o') ->
  In o side -> (Exchange_Client.price o == p)%Q ->
  Exchange_Client.unfilled o <= size_at p side.
Proof.
  intros Hnn Hin Hp. induction side as [| o' side IH]; [easy |].
  rewrite size_at_cons.
  assert (Hrest : 0 <= size_at p side).
  { clear - Hnn. induction side as [| o2 side IH]; [cbn; lia |].
    rewrite size_at_cons.
    assert (0 <= size_at p side)
      by (apply IH; intros o3 H3; apply Hnn; cbn in *; tauto).
    pose proof (Hnn o2 (or_intror (or_introl eq_refl))).
    destruct (Qeq_bool _ p); lia. }
  destruct Hin as [-> | Hin].
  - apply Qeq_bool_iff in Hp. rewrite Hp. lia.
  - assert (Exchange_Client.unfilled o <= size_at p side)
      by (apply IH; [intros o3 H3; apply Hnn; now right | exact Hin]).
    pose proof (Hnn o' (or_introl eq_refl)).
    destruct (Qeq_bool _ p); lia.
Qed.

(** The best level of the consolidated bids of a side listed best
    first. *)
Lemma consolidated_best_bid (o0 : Exchange_Client.raw_order)
    (rest : list Exchange_Client.raw_order) :
  (forall o, In o rest ->
     (Exchange_Client.price o <= Exchange_Client.price o0)%Q) ->
  exists p s tl,
    Exchange_Client.sorted_reverse (Exchange_Client.consolidate (o0 :: rest)) =
      (p, s) :: tl /\
    (p == Exchange_Client.price o0)%Q /\
    s = size_at p (o0 :: rest).
Proof.
  intro Hbest.
  destruct (consolidate_spec (o0 :: rest)) as [Hd [Hlev Hhas]].
  pose proof (sorted_reverse_descending _ Hd) as Hsorted.
  destruct (Hhas o0 (or_introl eq_refl)) as [l0 [Hl0 El0]].
  unfold Exchange_Client.sorted_reverse in *.
  apply (proj2 (sorted_by_In (fun a b => Exchange_Client.item_le b a) l0 _)) in Hl0.
  set (out := Exchange_Client.sorted_by _ _) in *.
  destruct out as [| [p s] tl] eqn:Eout; [easy |].
  assert (Hhead : In (p, s) (Exchange_Client.consolidate (o0 :: rest))).
  { apply (proj1 (sorted_by_In (fun a b => Exchange_Client.item_le b a) (p, s) _)).
    fold out. rewrite Eout. now left. }
  destruct (Hlev p s Hhead) as [[o [Ho Hpo]] Hs].
  assert (Hp_le : (p <= Exchange_Client.price o0)%Q).
  { rewrite <- Hpo. destruct Ho as [<- | Ho]; [apply Qle_refl | now apply Hbest]. }
  exists p, s, tl. split; [reflexivity |]. split; [| exact Hs].
  destruct Hl0 as [<- | Hl0]; [exact El0 |].
  inversion Hsorted as [| x l Hsl Hall]; subst.
  rewrite Forall_forall in Hall. specialize (Hall l0 Hl0).
  unfold descending in Hall. cbn [fst] in Hall. lra.
Qed.

Lemma consolidated_best_ask (o0 : Exchange_Client.raw_order)
    (rest : list Exchange_Client.raw_order) :
  (forall o, In o rest ->
     (Exchange_Client.price o0 <= Exchange_Client.price o)%Q) ->
  exists p s tl,
    Exchange_Client.sorted (Exchange_Client.consolidate (o0 :: rest)) =
      (p, s) :: tl /\
    (p == Exchange_Client.price o0)%Q /\
    s = size_at p (o0 :: rest).
Proof.
  intro Hbest.
  destruct (consolidate_spec (o0 :: rest)) as [Hd [Hlev Hhas]].
  pose proof (sorted_ascending _ Hd) as Hsorted.
  destruct (Hhas o0 (or_introl eq_refl)) as [l0 [Hl0 El0]].
  unfold Exchange_Client.sorted in *.
  apply (proj2 (sorted_by_In Exchange_Client.item_le l0 _)) in Hl0.
  set (out := Exchange_Client.sorted_by _ _) in *.
  destruct out as [| [p s] tl] eqn:Eout; [easy |].
  assert (Hhead : In (p, s) (Exchange_Client.consolidate (o0 :: rest))).
  { apply (proj1 (sorted_by_In Exchange_Client.item_le (p, s) _)).
    fold out. rewrite Eout. now left. }
  destruct (Hlev p s Hhead) as [[o [Ho Hpo]] Hs].
  assert (Hp_ge : (Exchange_Client.price o0 <= p)%Q).
  { rewrite <- Hpo. destruct Ho as [<- | Ho]; [apply Qle_refl | now apply Hbest]. }
  exists p, s, tl. split; [reflexivity |]. split; [| exact Hs].
  destruct Hl0 as [<- | Hl0]; [exact El0 |].
  inversion Hsorted as [| x l Hsl Hall]; subst.
  rewrite Forall_forall in Hall. specialize (Hall l0 Hl0).
  unfold ascending in Hall. cbn [fst] in Hall. lra.
Qed.

Lemma nbbo_side_outcome (orders : list Exchange_Client.raw_order) :
  (exists x, Client.nbbo_side orders = Py.Ok x) \/
  Client.nbbo_side orders = Py.Raise Py.TypeError.
Proof.
  destruct orders as [| o rest]; cbn; [left; eauto |].
  destruct (Exchange_Client.quantity_filled o); [left; eauto | now right].
Qed.

Lemma nbbo_ticker_outcome (data : Exchange_Client.raw_book) :
  (exists x, Client.nbbo_ticker data = Py.Ok x) \/
  Client.nbbo_ticker data = Py.Raise Py.TypeError.
Proof.
  unfold Client.nbbo_ticker.
  destruct (nbbo_side_outcome (Exchange_Client.raw_bids data)) as [[b ->] | ->];
    cbn [Py.bind]; [| now right].
  destruct (nbbo_side_outcome (Exchange_Client.raw_asks data)) as [[a ->] | ->];
    cbn [Py.bind]; [left; eauto | now right].
Qed.

Lemma get_nbbo_book_ticker orderbook nbbo t :
  Client.get_nbbo_book orderbook = Py.Ok nbbo ->
  Client.nbbo_side (Exchange_Client.raw_bids (orderbook t)) = Py.Ok (fst (nbbo t)) /\
  Client.nbbo_side (Exchange_Client.raw_asks (orderbook t)) = Py.Ok (snd (nbbo t)).
Proof.
  unfold Client.get_nbbo_book, Client.nbbo_ticker. intro H.
  destruct (Client.nbbo_side (Exchange_Client.raw_bids (orderbook GEM)))
    as [gb |] eqn:E1; cbn [Py.bind] in H; [| discriminate].
  destruct (Client.nbbo_side (Exchange_Client.raw_asks (orderbook GEM)))
    as [ga |] eqn:E2; cbn [Py.bind] in H; [| discriminate].
  destruct (Client.nbbo_side (Exchange_Client.raw_bids (orderbook UB)))
    as [ub |] eqn:E3; cbn [Py.bind] in H; [| discriminate].
  destruct (Client.nbbo_side (Exchange_Client.raw_asks (orderbook UB)))
    as [ua |] eqn:E4; cbn [Py.bind] in H; [| discriminate].
  destruct (Client.nbbo_side (Exchange_Client.raw_bids (orderbook ETF)))
    as [eb |] eqn:E5; cbn [Py.bind] in H; [| discriminate].
  destruct (Client.nbbo_side (Exchange_Client.raw_asks (orderbook ETF)))
    as [ea |] eqn:E6; cbn [Py.bind] in H; [| discriminate].
  injection H as <-. destruct t; cbn [fst snd]; split; assumption.
Qed.

(** X15.  The best bid and offer against the consolidated book.
    [get_nbbo_book] raises [TypeError] as soon as the first order of a
    side has no ['quantity_filled'], where [get_consolidated_orderbook]
    reads the missing key as 0.  When it returns, an empty side gives
    [None]; and for a bid side listed best first whose orders have no
    negative unfilled quantity, the price it reports is the price of the
    best level of the consolidated bids and the size it reports is at
    most the size of that level. *)
Theorem get_nbbo_book_against_consolidated
    (orderbook : ticker -> Exchange_Client.raw_book) (t : ticker) :
  (forall o rest,
     Exchange_Client.raw_bids (orderbook t) = o :: rest ->
     Exchange_Client.quantity_filled o = None ->
     Client.get_nbbo_book orderbook = Py.Raise Py.TypeError) /\
  (forall nbbo,
     Client.get_nbbo_book orderbook = Py.Ok nbbo ->
     (Exchange_Client.raw_bids (orderbook t) = [] <-> fst (nbbo t) = None) /\
     forall o rest,
       Exchange_Client.raw_bids (orderbook t) = o :: rest ->
       (forall o', In o' rest ->
          (Exchange_Client.price o' <= Exchange_Client.price o)%Q) ->
       (forall o', In o' (o :: rest) -> 0 <= Exchange_Client.unfilled o') ->
       exists p s levels,
         bids (Exchange_Client.get_consolidated_orderbook orderbook t) =
           (p, s) :: levels /\
         fst (nbbo t) = Some (Exchange_Client.price o, Exchange_Client.unfilled o) /\
         (p == Exchange_Client.price o)%Q /\
         Exchange_Client.unfilled o <= s).
Proof.
  split.
  - intros o rest Hbids Hnone.
    assert (Hside : Client.nbbo_side (Exchange_Client.raw_bids (orderbook t)) =
                    Py.Raise Py.TypeError).
    { rewrite Hbids. cbn. now rewrite Hnone. }
    assert (Hticker : Client.nbbo_ticker (orderbook t) = Py.Raise Py.TypeError)
      by (unfold Client.nbbo_ticker; now rewrite Hside).
    unfold Client.get_nbbo_book.
    destruct t; rewrite ?Hticker; cbn [Py.bind]; try reflexivity.
    + destruct (nbbo_ticker_outcome (orderbook GEM)) as [[x ->] | ->];
        cbn [Py.bind]; reflexivity.
    + destruct (nbbo_ticker_outcome (orderbook GEM)) as [[x ->] | ->];
        cbn [Py.bind]; [| reflexivity].
      destruct (nbbo_ticker_outcome (orderbook UB)) as [[y ->] | ->];
        cbn [Py.bind]; reflexivity.
  - intros nbbo Hok.
    destruct (get_nbbo_book_ticker orderbook nbbo t Hok) as [Hb _].
    split.
    + destruct (Exchange_Client.raw_bids (orderbook t)) as [| o rest];
        cbn in Hb.
      * injection Hb as <-. split; reflexivity.
      * destruct (Exchange_Client.quantity_filled o); [| discriminate].
        injection Hb as <-. split; discriminate.
    + intros o rest Hbids Hbest Hnn.
      destruct (consolidated_best_bid o rest Hbest) as [p [s [tl [Hout [Hp Hs]]]]].
      exists p, s, tl.
      unfold Exchange_Client.get_consolidated_orderbook. cbn [bids].
      rewrite Hbids. split; [exact Hout |].
      rewrite Hbids in Hb. cbn in Hb. unfold Exchange_Client.unfilled.
      destruct (Exchange_Client.quantity_filled o) as [f |] eqn:Hf;
        [| discriminate].
      injection Hb as <-. split; [reflexivity |]. split; [exact Hp |].
      rewrite Hs.
      pose proof (size_at_ge_member p (o :: rest) o Hnn (or_introl eq_refl)) as H.
      unfold Exchange_Client.unfilled in H at 1. rewrite Hf in H.
      apply H. now symmetry.
Qed.

(* ------------------------------------------------------------------ *)
(** ** Client: which cancellation is requested *)

(** X16.  The request of [cancel_all_orders].  With a list of ids that is
    not empty and nothing else, the request names exactly those ids, so
    the call the diff stage makes behind its guard never raises.  A call
    that selects nothing (no [all_orders], no ticker, and no id list or an
    empty one) raises [ValueError], whatever the direction.  With
    [all_orders] and an id list everything is cancelled whatever ticker is
    given, while [all_orders] with a ticker and no id list raises.  A
    request by ids is only ever made without [all_orders], without a
    ticker and with the non-empty list given. *)
Theorem cancel_all_orders_params_selection :
  (forall ids, ids <> [] ->
     Client.cancel_all_orders_params false None None (Some ids) =
     Py.Ok (Client.CancelIds ids)) /\
  (forall ticker direction ids,
     Client.truthy ticker = false -> ids = None \/ ids = Some [] ->
     Client.cancel_all_orders_params false ticker direction ids =
     Py.Raise Py.ValueError) /\
  (forall ticker ids,
     Client.cancel_all_orders_params true ticker None (Some ids) =
     Py.Ok Client.CancelAll) /\
  (forall ticker direction,
     Client.truthy ticker = true ->
     Client.cancel_all_orders_params true ticker direction None =
     Py.Raise Py.ValueError) /\
  (forall all_orders ticker direction order_ids ids,
     Client.cancel_all_orders_params all_orders ticker direction order_ids =
     Py.Ok (Client.CancelIds ids) ->
     all_orders = false /\ Client.truthy ticker = false /\
     order_ids = Some ids /\ ids <> []).
Proof.
  split; [| split; [| split; [| split]]].
  - intros [| id ids] H; [contradiction | reflexivity].
  - intros ticker direction ids Ht Hids.
    unfold Client.cancel_all_orders_params. rewrite Ht. cbn [andb].
    destruct (Client.truthy direction && negb _); [reflexivity |].
    destruct Hids as [-> | ->]; reflexivity.
  - intros ticker ids. unfold Client.cancel_all_orders_params. cbn.
    now rewrite andb_false_r.
  - intros ticker direction Ht.
    unfold Client.cancel_all_orders_params. rewrite Ht. reflexivity.
  - intros all_orders ticker direction order_ids ids.
    unfold Client.cancel_all_orders_params.
    destruct (all_orders && _ && _); [discriminate |].
    destruct (Client.truthy direction && negb _); [discriminate |].
    destruct all_orders; [discriminate |].
    destruct (Client.truthy ticker).
    + destruct (Client.truthy direction); discriminate.
    + destruct order_ids as [[| id l] |]; try discriminate.
      intro H. injection H as <-. repeat split. discriminate.
Qed.

(* ------------------------------------------------------------------ *)
(** ** Client: positions *)

Lemma get_positions_snoc (l : list Client.security) (e : Client.security)
    (t : ticker) :
  Client.get_positions (l ++ [e]) t =
  match Client.known_ticker e with
  | Some t' =>
      if ticker_eqb t t'
      then Some match Client.sec_position e with Some p => p | None => 0 end
      else Client.get_positions l t
  | None => Client.get_positions l t
  end.
Proof.
  unfold Client.get_positions. rewrite fold_left_app. cbn [fold_left].
  destruct (Client.known_ticker e); reflexivity.
Qed.

Lemma get_positions_none (l : list Client.security) (t : ticker) :
  Client.get_positions l t = None <->
  forall e, In e l -> Client.known_ticker e <> Some t.
Proof.
  induction l as [| e l IH] using rev_ind.
  - split; [intros _ e [] | reflexivity].
  - rewrite get_positions_snoc. split.
    + intros H e' He'. apply in_app_or in He'.
      destruct (Client.known_ticker e) as [t' |] eqn:Ek.
      * destruct (ticker_eqb t t') eqn:Et; [discriminate |].
        destruct He' as [He' | [<- | []]].
        -- now apply IH.
        -- rewrite Ek. intro Heq. injection Heq as ->.
           now rewrite ticker_eqb_refl in Et.
      * destruct He' as [He' | [<- | []]]; [now apply IH | now rewrite Ek].
    + intro H.
      assert (Hl : Client.get_positions l t = None).
      { apply IH. intros e' He'. apply H, in_or_app. now left. }
      assert (He : Client.known_ticker e <> Some t).
      { apply H, in_or_app. right. now left. }
      destruct (Client.known_ticker e) as [t' |]; [| exact Hl].
      destruct (ticker_eqb t t') eqn:Et; [| exact Hl].
      apply ticker_eqb_eq in Et. subst t'. contradiction.
Qed.

Lemma get_positions_after (l2 : list Client.security) :
  forall l1 t,
    (forall e, In e l2 -> Client.known_ticker e <> Some t) ->
    Client.get_positions (l1 ++ l2) t = Client.get_positions l1 t.
Proof.
  induction l2 as [| e l2 IH] using rev_ind; intros l1 t H.
  - now rewrite app_nil_r.
  - rewrite app_assoc, get_positions_snoc.
    assert (He : Client.known_ticker e <> Some t).
    { apply H, in_or_app. right. now left. }
    assert (Hrest : Client.get_positions (l1 ++ l2) t = Client.get_positions l1 t).
    { apply IH. intros e' He'. apply H, in_or_app. now left. }
    destruct (Client.known_ticker e) as [t' |]; [| exact Hrest].
    destruct (ticker_eqb t t') eqn:Et; [| exact Hrest].
    apply ticker_eqb_eq in Et. subst t'. contradiction.
Qed.

(** X17.  Positions read from the securities list.  [get_positions] has a
    key for an instrument exactly when the list has an entry whose ticker
    is that instrument; the value is the position of the last such entry,
    0 if that entry has no position; entries with another ticker or none
    change nothing.  For every positions dict the absolute skew
    [|GEM + UB - ETF|] is at most the gross position. *)
Theorem get_positions_last_entry (t : ticker) :
  (forall response,
     Client.get_positions response t = None <->
     forall e, In e response -> Client.known_ticker e <> Some t) /\
  (forall l1 e l2,
     Client.known_ticker e = Some t ->
     (forall e', In e' l2 -> Client.known_ticker e' <> Some t) ->
     Client.get_positions (l1 ++ e :: l2) t =
     Some match Client.sec_position e with Some p => p | None => 0 end) /\
  (forall positions : ticker -> option Z,
     Z.abs (Client.get_positions_skew positions) <=
     Client.get_gross_position positions).
Proof.
  split; [| split].
  - intro response. apply get_positions_none.
  - intros l1 e l2 Hk Hl2.
    change (l1 ++ e :: l2) with (l1 ++ [e] ++ l2). rewrite app_assoc.
    rewrite get_positions_after by exact Hl2.
    rewrite get_positions_snoc, Hk. now rewrite ticker_eqb_refl.
  - intro positions.
    unfold Client.get_positions_skew, Client.get_gross_position, Client.get0.
    cbn [fold_left].
    destruct (positions GEM), (positions UB), (positions ETF); lia.
Qed.

(* ------------------------------------------------------------------ *)
(** ** Client: the query string *)

Lemma append_nonempty (a b : string) : a <> EmptyString -> (a ++ b)%string <> EmptyString.
Proof. destruct a; [congruence | discriminate]. Qed.

Lemma join_amp_empty (parts : list string) :
  (forall x, In x parts -> x <> EmptyString) ->
  Client.join_amp parts = EmptyString -> parts = [].
Proof.
  destruct parts as [| x rest]; [reflexivity |].
  intros H E. exfalso. assert (Hx : x <> EmptyString) by (apply H; now left).
  destruct rest as [| y rest]; [cbn in E; contradiction |].
  change (Client.join_amp (x :: y :: rest))
    with (x ++ "&" ++ Client.join_amp (y :: rest))%string in E.
  exact (append_nonempty x _ Hx E).
Qed.

(** X18.  The query string.  [query_generation] returns the empty string
    exactly when no parameter has a value (an empty dict, or every value
    [None]); otherwise the string starts with a question mark. *)
Theorem query_generation_empty (params : list (string * option string)) :
  (Client.query_generation params = EmptyString <->
   forall kv, In kv params -> snd kv = None) /\
  (Client.query_generation params = EmptyString \/
   exists rest, Client.query_generation params = String "?" rest).
Proof.
  unfold Client.query_generation.
  destruct params as [| kv0 params0]; [split; [split; [easy | reflexivity] | now left] |].
  set (params := kv0 :: params0).
  set (relevant := flat_map _ params).
  assert (Hparts : forall x, In x relevant -> x <> EmptyString).
  { intros x Hx. subst relevant. apply in_flat_map in Hx.
    destruct Hx as [kv [_ Hx]]. destruct (snd kv); [| easy].
    destruct Hx as [<- | []]. destruct (fst kv); discriminate. }
  assert (Hnil : relevant = [] <-> forall kv, In kv params -> snd kv = None).
  { subst relevant. split.
    - intros E kv Hin. destruct (snd kv) as [v |] eqn:Ev; [| reflexivity].
      exfalso.
      assert (Hx : In (fst kv ++ "=" ++ v)%string
                      (flat_map (fun kv => match snd kv with
                                           | Some v => [(fst kv ++ "=" ++ v)%string]
                                           | None => []
                                           end) params)).
      { apply in_flat_map. exists kv. split; [exact Hin |]. rewrite Ev. now left. }
      rewrite E in Hx. exact Hx.
    - intro H. apply flat_map_nil. intros kv Hin. now rewrite (H kv Hin). }
  destruct (0 <? String.length (Client.join_amp relevant))%nat eqn:El.
  - split; [| right; eexists; reflexivity].
    split; [discriminate |].
    intro H. apply Hnil in H. rewrite H in El. discriminate.
  - split; [| now left]. split; [| reflexivity].
    intros _. apply Hnil. apply length_zero_empty in El.
    now apply join_amp_empty.
Qed.

(* ------------------------------------------------------------------ *)
(** ** News: intervals over time, and what the intersection keeps *)


Lemma max_list_lub (xs : list Q) (m : Q) :
  forall x, (x <= m)%Q -> (forall y, In y xs -> (y <= m)%Q) ->
            (Py.max_list x xs <= m)%Q.
Proof.
  unfold Py.max_list. induction xs as [| z xs IH]; intros x Hx H; [exact Hx |].
  cbn [fold_left]. apply IH.
  - apply max_lub; [exact Hx | apply H; now left].
  - intros y Hy. apply H. now right.
Qed.

Lemma min_list_glb (xs : list Q) (m : Q) :
  forall x, (m <= x)%Q -> (forall y, In y xs -> (m <= y)%Q) ->
            (m <= Py.min_list x xs)%Q.
Proof.
  unfold Py.min_list. induction xs as [| z xs IH]; intros x Hx H; [exact Hx |].
  cbn [fold_left]. apply IH.
  - apply min_glb; [exact Hx | apply H; now left].
  - intros y Hy. apply H. now right.
Qed.

Lemma processed_side_keeps (l : list News.interval) (lo hi v : Q) :
  (lo <= v <= hi)%Q ->
  (forall e, In e l -> (fst e <= v <= snd e)%Q) ->
  let g := match l with
           | [] => (lo, hi)
           | e :: es => (Py.max (Py.max_list (fst e) (map fst es)) lo,
                         Py.min (Py.min_list (snd e) (map snd es)) hi)
           end in
  (fst g <= v <= snd g)%Q.
Proof.
  intros Hv Hall. destruct l as [| e0 es]; cbn [fst snd]; [exact Hv |].
  destruct (Hall e0 (or_introl eq_refl)) as [H0l H0h].
  split.
  - apply max_lub; [| apply Hv].
    apply max_list_lub; [exact H0l |].
    intros y Hy. apply in_map_iff in Hy. destruct Hy as [e [<- He]].
    apply Hall. now right.
  - apply min_glb; [| apply Hv].
    apply min_list_glb; [exact H0h |].
    intros y Hy. apply in_map_iff in Hy. destruct Hy as [e [<- He]].
    apply Hall. now right.
Qed.

(** X20.  The intersection keeps every common value.  A value that lies
    in the prior of an instrument and in every interval collected for it
    lies in the interval [get_processed_interval] returns for it; so if
    the collected intervals and the prior have a value in common, the
    returned interval has its low bound at or below its high bound. *)
Theorem get_processed_interval_keeps_common
    (geb ub : list News.interval) (vg vu : Q) :
  ((20 <= vg <= 30)%Q ->
   (forall e, In e geb -> (fst e <= vg <= snd e)%Q) ->
   let g := fst (News.get_processed_interval geb ub) in
   (fst g <= vg <= snd g)%Q /\ (fst g <= snd g)%Q) /\
  ((40 <= vu <= 60)%Q ->
   (forall e, In e ub -> (fst e <= vu <= snd e)%Q) ->
   let u := snd (News.get_processed_interval geb ub) in
   (fst u <= vu <= snd u)%Q /\ (fst u <= snd u)%Q).
Proof.
  unfold News.get_processed_interval. cbn [fst snd]. split.
  - intros Hv Hall.
    pose proof (processed_side_keeps geb 20 30 vg Hv Hall) as H.
    cbv zeta in *. split; [exact H | lra].
  - intros Hv Hall.
    pose proof (processed_side_keeps ub 40 60 vu Hv Hall) as H.
    cbv zeta in *. split; [exact H | lra].
Qed.

(* ------------------------------------------------------------------ *)
(** ** Controller: the remedy of a skew *)




(* ------------------------------------------------------------------ *)
(** ** The further properties on example inputs *)

Lemma get_processed_interval_bounds_witness :
  In (24, 31)%Q More_examples.two_estimates /\
  (24 <= fst (fst (News.get_processed_interval More_examples.two_estimates [])))%Q /\
  (snd (fst (News.get_processed_interval More_examples.two_estimates [])) <= 31)%Q.
Proof.
  assert (Hin : In (24, 31)%Q More_examples.two_estimates)
    by (right; left; reflexivity).
  split; [exact Hin |].
  exact (proj2 (proj2 (proj1 (get_processed_interval_bounds
                                More_examples.two_estimates [])))
           (24, 31)%Q Hin).
Defined.

Lemma process_news_ok_iff_witness :
  exists geb ub,
    News.process_news News.decimal_float
      [Examples.opening; Examples.ub_43_25] = Py.Ok (geb, ub).
Proof.
  apply (proj1 (proj1 (process_news_ok_iff News.decimal_float
                         [Examples.opening; Examples.ub_43_25]))).
  intros news [<- | [<- | []]] Hs.
  - vm_compute in Hs. discriminate Hs.
  - split; [discriminate |]. split; [vm_compute; discriminate |].
    eexists. vm_compute. reflexivity.
Defined.

Lemma process_news_sentinels_and_growth_witness :
  let before :=
    News.get_processed_interval [] [((3891 # 100)%Q, (4759 # 100)%Q)] in
  let after :=
    News.get_processed_interval []
      [((3891 # 100)%Q, (4759 # 100)%Q); ((4210 # 100)%Q, (4610 # 100)%Q)] in
  News.process_news News.decimal_float
    [Examples.opening; Examples.ub_43_25] =
    Py.Ok ([], [((3891 # 100)%Q, (4759 # 100)%Q)]) /\
  (fst (snd before) <= fst (snd after))%Q /\
  (snd (snd after) <= snd (snd before))%Q.
Proof.
  intros before after.
  assert (H1 : News.process_news News.decimal_float
                 [Examples.opening; Examples.ub_43_25] =
               Py.Ok ([], [((3891 # 100)%Q, (4759 # 100)%Q)]))
    by (vm_compute; reflexivity).
  assert (H2 : News.process_news News.decimal_float
                 ([Examples.opening; Examples.ub_43_25]
                  ++ [More_examples.later_ub]) =
               Py.Ok ([], [((3891 # 100)%Q, (4759 # 100)%Q);
                           ((4210 # 100)%Q, (4610 # 100)%Q)]))
    by (vm_compute; reflexivity).
  split; [exact H1 |].
  exact (proj2 (proj2 (proj2 (process_news_sentinels_and_growth
                                News.decimal_float
                                [Examples.opening; Examples.ub_43_25]
                                [More_examples.later_ub])
                              _ _ _ _ H1 H2))).
Defined.

(** A feed with an item that has no estimate raises at first and is
    answered from the priors when it is fetched again. *)
Lemma full_process_news_same_length_witness :
  let feed := [Examples.opening; Examples.empty_body] in
  let st1 := fst (News.full_process_news News.decimal_float (Some feed) News.fresh) in
  snd (News.full_process_news News.decimal_float (Some feed) News.fresh) =
    Py.Raise Py.TypeError /\
  snd (News.full_process_news News.decimal_float (Some feed) st1) =
    Py.Ok (News.estimates st1).
Proof.
  intros feed st1. split; [vm_compute; reflexivity |].
  exact (proj1 (full_process_news_same_length News.decimal_float feed feed
                  News.fresh eq_refl)).
Defined.


Lemma get_consolidated_orderbook_conserves_witness :
  by_value (fun _ => true) /\
  level_sum (fun _ => true)
    (bids (Exchange_Client.get_consolidated_orderbook
             (fun _ => Examples.raw_gem) GEM)) =
  order_sum (fun _ => true) (Exchange_Client.raw_bids Examples.raw_gem).
Proof.
  assert (HP : by_value (fun _ => true)) by (intros a b _; reflexivity).
  split; [exact HP |].
  exact (proj1 (proj2 (proj2 (get_consolidated_orderbook_conserves
                                (fun _ => Examples.raw_gem) GEM))
                 (fun _ => true) HP)).
Defined.

Lemma run_orders_into_mispricing_witness :
  Hitter_run.run_orders More_examples.hit_book News.priors =
    Some [Hitter.market_order GEM SELL; Hitter.market_order GEM SELL] /\
  exists p s rest,
    bids (More_examples.hit_book GEM) = (p, s) :: rest /\
    (snd (News.priors GEM) < p)%Q.
Proof.
  split; [vm_compute; reflexivity |].
  assert (Hin : In (Hitter.market_order GEM SELL)
                  match Hitter_run.run_orders More_examples.hit_book News.priors with
                  | Some l => l
                  | None => []
                  end) by (vm_compute; left; reflexivity).
  exact (proj2 (proj2 (proj1 (run_orders_into_mispricing
                                More_examples.hit_book News.priors)
                         (Hitter.market_order GEM SELL) Hin))).
Defined.

Lemma gate_admits_exactly_witness :
  Hitter.within_limits (Hitter.positions Examples.long_gem) /\
  (Hitter.admitted (Hitter.positions Examples.long_gem)
     (Hitter.market_order GEM BUY) = true <->
   Hitter.within_limits
     (Hitter.execute (Hitter.positions Examples.long_gem)
        (Hitter.market_order GEM BUY))).
Proof.
  assert (H : Hitter.within_limits (Hitter.positions Examples.long_gem)).
  { split; [vm_compute; discriminate |].
    intro t; destruct t; vm_compute; split; discriminate. }
  split; [exact H |].
  exact (proj2 (gate_admits_exactly (Hitter.positions Examples.long_gem)
                  (Hitter.market_order GEM BUY)) H eq_refl).
Defined.




Lemma check_against_current_quotes_counts_witness :
  NoDup (map fst Examples.adjusted_gem) /\
  (List.length
     (filter (order_on GEM BUY)
        (fst (Quoter.check_against_current_quotes
                (Exchange_Client.get_quotes
                   (Exchange_Client.open_orders Examples.one_bid))
                Examples.adjusted_gem))) <= 1)%nat.
Proof.
  assert (Hnd : NoDup (map fst Examples.adjusted_gem))
    by (cbn; repeat constructor; cbn; intuition discriminate).
  split; [exact Hnd |].
  exact (proj2 (check_against_current_quotes_counts
                  (Exchange_Client.get_quotes
                     (Exchange_Client.open_orders Examples.one_bid))
                  Examples.adjusted_gem) Hnd GEM BUY).
Defined.

Lemma get_nbbo_book_against_consolidated_witness :
  exists nbbo p s levels,
    Client.get_nbbo_book (fun _ => More_examples.raw_filled) = Py.Ok nbbo /\
    bids (Exchange_Client.get_consolidated_orderbook
            (fun _ => More_examples.raw_filled) GEM) = (p, s) :: levels /\
    fst (nbbo GEM) = Some (10%Q, 80) /\
    (p == 10)%Q /\ 80 <= s.
Proof.
  destruct (Client.get_nbbo_book (fun _ => More_examples.raw_filled))
    as [nbbo | e] eqn:Hok; [| vm_compute in Hok; discriminate Hok].
  destruct (proj2 (proj2 (get_nbbo_book_against_consolidated
                            (fun _ => More_examples.raw_filled) GEM) nbbo Hok)
              (Exchange_Client.mkRaw 10 100 (Some 20) (Some "user1"%string))
              _ eq_refl)
    as [p [s [levels [Hb [Hn [Hp Hs]]]]]].
  - intros o' [<- | [<- | []]]; vm_compute; discriminate.
  - intros o' [<- | [<- | [<- | []]]]; vm_compute; discriminate.
  - exists nbbo, p, s, levels. repeat split; assumption.
Defined.

Lemma cancel_all_orders_params_selection_witness :
  [1; 2] <> [] /\
  Client.cancel_all_orders_params false None None (Some [1; 2]) =
  Py.Ok (Client.CancelIds [1; 2]).
Proof.
  assert (H : [1; 2] <> []) by discriminate.
  split; [exact H |].
  exact (proj1 cancel_all_orders_params_selection [1; 2] H).
Defined.

Lemma get_positions_last_entry_witness :
  Client.get_positions More_examples.securities GEM = Some 250 /\
  Client.get_positions More_examples.securities ETF = None.
Proof.
  split.
  - refine (proj1 (proj2 (get_positions_last_entry GEM))
              [Client.mkSecurity (Some "GEM"%string) (Some 100);
               Client.mkSecurity (Some "XYZ"%string) (Some 5)]
              (Client.mkSecurity (Some "GEM"%string) (Some 250))
              [Client.mkSecurity (Some "UB"%string) None] eq_refl _).
    intros e' [<- | []]. vm_compute. discriminate.
  - apply (proj2 (proj1 (get_positions_last_entry ETF) More_examples.securities)).
    intros e [<- | [<- | [<- | [<- | []]]]]; vm_compute; discriminate.
Defined.

Lemma query_generation_empty_witness :
  Client.query_generation More_examples.params_without_values = EmptyString.
Proof.
  apply (proj2 (proj1 (query_generation_empty
                         More_examples.params_without_values))).
  intros kv [<- | [<- | []]]; reflexivity.
Defined.


Lemma get_processed_interval_keeps_common_witness :
  (20 <= 25 <= 30)%Q /\
  (fst (fst (News.get_processed_interval More_examples.two_estimates []))
   <= 25
   <= snd (fst (News.get_processed_interval More_examples.two_estimates [])))%Q.
Proof.
  assert (Hv : (20 <= 25 <= 30)%Q) by (split; vm_compute; discriminate).
  split; [exact Hv |].
  refine (proj1 (proj1 (get_processed_interval_keeps_common
                          More_examples.two_estimates [] 25 50) Hv _)).
  intros e [<- | [<- | []]]; split; vm_compute; discriminate.
Defined.

